(** * wf-auto-tabs.js: the pausable countdown [Timer] and the [Booster]
      attribute parser, embedded shallowly.

    The script is event driven.  The host (browser) owns three things the
    classes touch: the wall clock ([Date.now()]), the table of pending
    one-shot timeouts ([setTimeout]/[clearTimeout]) and the queue of
    animation-frame callbacks ([requestAnimationFrame]).  They are modelled
    as an explicit [World] that every method threads through; what the
    callbacks handed to the timer are asked to do is recorded as a list of
    observations.  Time is counted in whole milliseconds on one clock that
    never runs backwards; it serves both [Date.now()] and the timestamps
    handed to animation-frame callbacks. *)

From Stdlib Require Import ZArith QArith Qminmax Qround Lia.
From stdpp Require Import base option list strings gmap.

Local Open Scope Z_scope.

(** ** JavaScript numbers, as far as the progress computation needs them *)

Module JS.

(** A number is a rational, or one of the three special values a division
    by zero produces.  Rounding is not modelled: quotients are exact. *)
Inductive num : Type :=
  | Num (q : Q)
  | NaN
  | PosInf
  | NegInf.

(** [a / b] on integral operands. *)
Definition div (a b : Z) : num :=
  if b =? 0 then
    (if a =? 0 then NaN else if 0 <? a then PosInf else NegInf)
  else Num (Qmake (a * Z.sgn b) (Z.to_pos (Z.abs b))).

(** [Math.min(x, y)]: [NaN] is contagious. *)
Definition min (x y : num) : num :=
  match x, y with
  | NaN, _ | _, NaN => NaN
  | NegInf, _ | _, NegInf => NegInf
  | PosInf, v | v, PosInf => v
  | Num a, Num b => Num (Qmin a b)
  end.

Definition sign_of (q : Q) : comparison := (q ?= 0)%Q.

(** [x * y]. *)
Definition mul (x y : num) : num :=
  match x, y with
  | NaN, _ | _, NaN => NaN
  | Num a, Num b => Num (a * b)
  | Num a, PosInf | PosInf, Num a =>
      match sign_of a with Eq => NaN | Gt => PosInf | Lt => NegInf end
  | Num a, NegInf | NegInf, Num a =>
      match sign_of a with Eq => NaN | Gt => NegInf | Lt => PosInf end
  | PosInf, PosInf | NegInf, NegInf => PosInf
  | PosInf, NegInf | NegInf, PosInf => NegInf
  end.

Definition of_Z (z : Z) : num := Num (inject_Z z).



(** Truthiness of a numeric field: [0] is falsy. *)
Definition truthy (z : Z) : bool := negb (z =? 0).

(** The number is a proper one and equals [q]. *)
Definition is_value (q : Q) (x : num) : Prop :=
  match x with
  | Num a => (a == q)%Q
  | _ => False
  end.



End JS.

(** ** The Timer class (src/wf-auto-tabs.js, lines 154-208) *)

Module Timer.

(** The fields of a [Timer] instance.  The two callbacks are opaque to the
    class: [cb] is only ever called, and [tick] is tested for truthiness
    and called, so [tick] is kept as the flag "a progress callback was
    supplied".  [timerId] is [None] while the property is [undefined];
    handles returned by [setTimeout] are positive integers, hence truthy. *)
Record t : Type := mk {
  delay : Z;
  tick : bool;
  remaining : Z;
  start : Z;
  timerId : option positive
}.

(** A callback waiting in the animation-frame queue: either the one-off
    [() => this.tick(0)] or the closure [animate], which carries its own
    local variable [start] ([None] while it is still [undefined]). *)
Inductive frame_cb : Type :=
  | Tick0
  | Animate (start : option Z).

(** What the outside sees: the completion callback being invoked (at which
    clock value), and the progress callback being invoked with a value. *)
Inductive obs : Type :=
  | Fired (at_time : Z)
  | Progress (p : JS.num).

(** The host state the timer lives in. *)
Record World : Type := mkWorld {
  timer : t;
  clock : Z;
  nextId : positive;
  timeouts : list (positive * Z);
  frames : list frame_cb
}.

Definition with_timer (f : t -> t) (w : World) : World :=
  mkWorld (f (timer w)) (clock w) (nextId w) (timeouts w) (frames w).

Definition set_remaining (r : Z) (x : t) : t :=
  mk (delay x) (tick x) r (start x) (timerId x).
Definition set_start (s : Z) (x : t) : t :=
  mk (delay x) (tick x) (remaining x) s (timerId x).
Definition set_timerId (h : option positive) (x : t) : t :=
  mk (delay x) (tick x) (remaining x) (start x) h.

(** *** Host primitives *)

(** [setTimeout(f, ms)]: a fresh handle, the callback due [ms] from now;
    a negative wait counts as zero. *)
Definition setTimeout (ms : Z) (w : World) : positive * World :=
  let id := nextId w in
  (id, mkWorld (timer w) (clock w) (Pos.succ id)
         (timeouts w ++ [(id, clock w + Z.max 0 ms)]) (frames w)).

(** [clearTimeout(h)]: drops the entry with that handle, if any;
    [clearTimeout(undefined)] does nothing. *)
Definition clearTimeout (h : option positive) (w : World) : World :=
  match h with
  | None => w
  | Some id =>
      mkWorld (timer w) (clock w) (nextId w)
        (List.filter (fun e => negb (Pos.eqb (fst e) id)) (timeouts w))
        (frames w)
  end.

Definition requestAnimationFrame (c : frame_cb) (w : World) : World :=
  mkWorld (timer w) (clock w) (nextId w) (timeouts w) (frames w ++ [c]).

(** *** Methods *)

Definition construct (delay : Z) (tick : bool) : t :=
  mk delay tick delay 0 None.

Definition clear (w : World) : World :=
  let w1 := clearTimeout (timerId (timer w)) w in
  with_timer (set_timerId None) w1.

Definition reset (w : World) : World :=
  let w1 := clear w in
  let w2 := with_timer (fun x => set_remaining (delay x) x) w1 in
  with_timer (set_start 0) w2.

Definition pause (w : World) : World :=
  if JS.truthy (start (timer w)) then
    let w1 :=
      with_timer
        (fun x => set_remaining (remaining x - (clock w - start x)) x) w in
    let w2 := with_timer (set_start 0) w1 in
    clear w2
  else w.

Definition runProgressAnimation (w : World) : World :=
  requestAnimationFrame (Animate None) w.

Definition resume (w : World) : World :=
  match timerId (timer w) with
  | Some _ => w
  | None =>
      let '(id, w1) := setTimeout (remaining (timer w)) w in
      let w2 := with_timer (set_timerId (Some id)) w1 in
      if tick (timer w2) then
        let w3 := with_timer (set_start (clock w2)) w2 in
        let w4 := requestAnimationFrame Tick0 w3 in
        runProgressAnimation w4
      else w2
  end.

(** The percentage [animate] reports for a given elapsed time. *)
Definition progress_of (elapsed d : Z) : JS.num :=
  JS.mul (JS.min (JS.div elapsed d) (JS.of_Z 1)) (JS.of_Z 100).

(** One call of the closure [animate] with the frame's timestamp. *)
Definition animate (s : option Z) (timestamp : Z) (w : World)
  : World * list obs :=
  let s' :=
    match s with
    | Some z => if JS.truthy z then z else timestamp
    | None => timestamp
    end in
  let elapsed := timestamp - s' in
  let progress := progress_of elapsed (delay (timer w)) in
  let out := if tick (timer w) then [Progress progress] else [] in
  let w' :=
    if elapsed <? delay (timer w)
    then requestAnimationFrame (Animate (Some s')) w
    else w in
  (w', out).

Definition run_frame_cb (c : frame_cb) (timestamp : Z) (w : World)
  : World * list obs :=
  match c with
  | Tick0 => (w, [Progress (JS.of_Z 0)])
  | Animate s => animate s timestamp w
  end.

Fixpoint run_frame_cbs (cs : list frame_cb) (timestamp : Z) (w : World)
  : World * list obs :=
  match cs with
  | [] => (w, [])
  | c :: cs' =>
      let '(w1, o1) := run_frame_cb c timestamp w in
      let '(w2, o2) := run_frame_cbs cs' timestamp w1 in
      (w2, o1 ++ o2)
  end.

(** *** What the host does between method calls *)

(** An animation frame: the callbacks queued so far run in order with the
    current clock as timestamp; what they queue waits for the next frame. *)
Definition frame (w : World) : World * list obs :=
  let cs := frames w in
  run_frame_cbs cs (clock w)
    (mkWorld (timer w) (clock w) (nextId w) (timeouts w) []).

Definition is_due (now : Z) (e : positive * Z) : bool := snd e <=? now.

(** The timeouts that are due run: each one calls [this.cb()] and leaves
    the table.  The handle stored in the timer is not touched. *)
Definition fire (w : World) : World * list obs :=
  let due := List.filter (is_due (clock w)) (timeouts w) in
  let rest :=
    List.filter (fun e => negb (is_due (clock w) e)) (timeouts w) in
  (mkWorld (timer w) (clock w) (nextId w) rest (frames w),
   map (fun _ => Fired (clock w)) due).

Definition advance (dt : N) (w : World) : World :=
  mkWorld (timer w) (clock w + Z.of_N dt) (nextId w) (timeouts w) (frames w).

(** The events of a run.  Anything the completion callback itself does to
    the timer (the tab rotation calls [reset] and [resume] from it) shows
    up as the method calls that follow the [Fire]. *)
Inductive op : Type :=
  | Resume
  | Pause
  | Reset
  | Wait (dt : N)
  | Fire
  | Frame.

Definition step (o : op) (w : World) : World * list obs :=
  match o with
  | Resume => (resume w, [])
  | Pause => (pause w, [])
  | Reset => (reset w, [])
  | Wait dt => (advance dt w, [])
  | Fire => fire w
  | Frame => frame w
  end.

Fixpoint run (os : list op) (w : World) : World * list obs :=
  match os with
  | [] => (w, [])
  | o :: os' =>
      let '(w1, o1) := step o w in
      let '(w2, o2) := run os' w1 in
      (w2, o1 ++ o2)
  end.

(** The world right after [new Timer(cb, delay, tick)] at clock [now]. *)
Definition init (now d : Z) (tk : bool) : World :=
  mkWorld (construct d tk) now 1%positive [] [].

(** *** Vocabulary for statements about runs *)

Definition final (os : list op) (w : World) : World := fst (run os w).
Definition seen (os : list op) (w : World) : list obs := snd (run os w).

(** Not [pause()] and not [reset()]. *)
Definition keeps_handle (o : op) : bool :=
  match o with
  | Pause | Reset => false
  | _ => true
  end.

Fixpoint fired_times (l : list obs) : list Z :=
  match l with
  | [] => []
  | Fired t0 :: l' => t0 :: fired_times l'
  | Progress _ :: l' => fired_times l'
  end.

Fixpoint progress_values (l : list obs) : list JS.num :=
  match l with
  | [] => []
  | Fired _ :: l' => progress_values l'
  | Progress p :: l' => p :: progress_values l'
  end.


Definition is_animate (c : frame_cb) : bool :=
  match c with
  | Animate _ => true
  | Tick0 => false
  end.

(** The progress loops alive: one queued [animate] closure each. *)
Definition active_loops (w : World) : nat :=
  length (List.filter is_animate (frames w)).

(** The handle is set although nothing is pending: the completion ran. *)
Definition stale (w : World) : Prop :=
  is_Some (timerId (timer w)) /\ timeouts w = [].

(** The fields fixed at construction. *)
Definition same_config (w w' : World) : Prop :=
  delay (timer w') = delay (timer w) /\ tick (timer w') = tick (timer w).

(** The timeout table holds nothing, or exactly the entry whose handle the
    timer stores. *)
Definition one_pending (w : World) : Prop :=
  timeouts w = [] \/
  exists id due, timeouts w = [(id, due)] /\ timerId (timer w) = Some id.

(** The method calls after which [resume()] schedules again. *)
Definition restores (w : World) (o : op) : bool :=
  match o with
  | Reset => true
  | Pause => JS.truthy (start (timer w))
  | _ => false
  end.

(** Every effective [pause()] of the run comes no later than the nominal
    fire time of the segment it ends. *)
Fixpoint timely (os : list op) (w : World) : Prop :=
  match os with
  | [] => True
  | o :: os' =>
      match o with
      | Pause =>
          JS.truthy (start (timer w)) = true ->
          clock w <= start (timer w) + remaining (timer w)
      | _ => True
      end /\ timely os' (fst (step o w))
  end.

(** Every [resume()] of the run that starts a progress loop finds no loop
    alive. *)
Fixpoint calm (os : list op) (w : World) : Prop :=
  match os with
  | [] => True
  | o :: os' =>
      match o with
      | Resume =>
          timerId (timer w) = None -> tick (timer w) = true ->
          active_loops w = 0%nat
      | _ => True
      end /\ calm os' (fst (step o w))
  end.

Definition count_animate (cs : list frame_cb) : nat :=
  length (List.filter is_animate cs).

(** Two worlds agree on whether a handle is stored and on what is
    pending, up to the names of the handles. *)
Definition same_handle_state (w1 w2 : World) : Prop :=
  (timerId (timer w1) = None /\ timerId (timer w2) = None /\
   timeouts w1 = [] /\ timeouts w2 = []) \/
  (stale w1 /\ stale w2) \/
  (exists id1 id2 due,
     timerId (timer w1) = Some id1 /\ timeouts w1 = [(id1, due)] /\
     timerId (timer w2) = Some id2 /\ timeouts w2 = [(id2, due)]).

(** Two worlds agree on the timer's fields, the clock and the pending
    completion; the frame queues are left out. *)
Definition alike (w1 w2 : World) : Prop :=
  delay (timer w1) = delay (timer w2) /\
  tick (timer w1) = tick (timer w2) /\
  remaining (timer w1) = remaining (timer w2) /\
  start (timer w1) = start (timer w2) /\
  clock w1 = clock w2 /\
  same_handle_state w1 w2.










End Timer.


(** ** The attribute layer (src/wf-auto-tabs.js, lines 60-148 and 211-229) *)

(** The values an attribute can end up with in the data store. *)
Inductive value : Type :=
  | VUndefined
  | VNull
  | VBool (b : bool)
  | VNumber (n : JS.num)
  | VString (s : string).

Definition nullish (v : value) : bool :=
  match v with
  | VUndefined | VNull => true
  | _ => false
  end.

(** [a ?? b] *)
Definition coalesce (a b : value) : value := if nullish a then b else a.

Module DataStore.

(** [this.data], an object used as a map from attribute names to values. *)
Definition t : Type := gmap string value.

Definition empty : t := ∅.

Definition set (key : string) (v : value) (d : t) : t := <[key := v]> d.

(** Reading a key that was never set gives [undefined]. *)
Definition get (key : string) (d : t) : value := default VUndefined (d !! key).

End DataStore.

Module Attr.

(** [attribute.validate] is a predicate or an array of admissible values. *)
Inductive validator : Type :=
  | ByFunction (f : string -> bool)
  | ByArray (allowed : list string).

(** One entry of [options.attributes]; [validate] and [parse] are optional. *)
Record t : Type := mk {
  defaultValue : value;
  validate : option validator;
  parse : option (string -> value)
}.

End Attr.

Module Booster.

(** What [this.log] is called with on a rejected value: the value, the
    attribute name and, for an array validator, the admissible values. *)
Inductive log_entry : Type :=
  | Invalid (v name : string) (possible : option (list string)).

(** An element, as far as [getAttribute] is concerned. *)
Definition element : Type := gmap string string.

(** [element.getAttribute(key)]: [None] stands for [null]. *)
Definition getAttribute (key : string) (e : element) : option string :=
  e !! key.

(** Truthiness of what [getAttribute] returns: [null] and the empty string
    are falsy. *)
Definition truthy_attr (v : option string) : bool :=
  match v with
  | None => false
  | Some s => negb (String.eqb s EmptyString)
  end.

Definition includes (l : list string) (v : string) : bool :=
  existsb (String.eqb v) l.

Definition validate (attribute : Attr.t) (name v : string)
  : bool * list log_entry :=
  match Attr.validate attribute with
  | None => (true, [])
  | Some (Attr.ByFunction f) =>
      if f v then (true, []) else (false, [Invalid v name None])
  | Some (Attr.ByArray allowed) =>
      if includes allowed v then (true, [])
      else (false, [Invalid v name (Some allowed)])
  end.

(** The body of the [for (const key in this.options.attributes)] loop of
    [parse], over the attributes in their order of declaration.  The result
    is the data store handed to [options.apply], with what was logged. *)
Fixpoint parse_attributes (attrs : list (string * Attr.t)) (e : element)
    (dataStore : DataStore.t) : DataStore.t * list log_entry :=
  match attrs with
  | [] => (dataStore, [])
  | (key, attribute) :: rest =>
      let v := getAttribute key e in
      if negb (truthy_attr v) then
        parse_attributes rest e
          (DataStore.set key (Attr.defaultValue attribute) dataStore)
      else
        let s := default EmptyString v in
        let '(ok, l1) := validate attribute key s in
        if negb ok then
          let '(d, l2) := parse_attributes rest e dataStore in (d, l1 ++ l2)
        else
          let parsedValue :=
            match Attr.parse attribute with
            | Some p => coalesce (p s) (Attr.defaultValue attribute)
            | None => VString s
            end in
          let '(d, l2) :=
            parse_attributes rest e (DataStore.set key parsedValue dataStore) in
          (d, l1 ++ l2)
  end.

Definition parse (attrs : list (string * Attr.t)) (e : element)
  : DataStore.t * list log_entry :=
  parse_attributes attrs e DataStore.empty.

(** What the loop body leaves under [key] for an attribute whose raw value
    is [v]: [None] when it stores nothing. *)
Definition stored (attribute : Attr.t) (key : string) (v : option string)
  : option value :=
  if negb (truthy_attr v) then Some (Attr.defaultValue attribute)
  else
    let s := default EmptyString v in
    if negb (fst (validate attribute key s)) then None
    else Some
           match Attr.parse attribute with
           | Some p => coalesce (p s) (Attr.defaultValue attribute)
           | None => VString s
           end.

End Booster.

(** The utility functions and the configuration of [autoTabBooster].  The
    built-in [Number], applied to a string, is a parameter of the
    configuration. *)
Module AutoTab.

Definition isNaN (n : JS.num) : bool :=
  match n with
  | JS.NaN => true
  | _ => false
  end.

Definition stringToBoolean (v : string) : value :=
  VBool (negb (String.eqb v "false")).

(** [/^(true|false)$/.test(value)] *)
Definition isBoolean (v : string) : bool :=
  String.eqb v "true" || String.eqb v "false".

Section Config.

Variable Number : string -> JS.num.

Definition isNumber (v : string) : bool := negb (isNaN (Number v)).

Definition attributes : list (string * Attr.t) :=
  [ ("fb-tabs-pauseable"%string,
     Attr.mk (VBool false) (Some (Attr.ByFunction isBoolean))
       (Some stringToBoolean));
    ("fb-tabs-progress"%string,
     Attr.mk (VBool false) (Some (Attr.ByFunction isBoolean))
       (Some stringToBoolean));
    ("fb-tabs-speed"%string,
     Attr.mk (VNumber (JS.of_Z 5000)) (Some (Attr.ByFunction isNumber))
       (Some (fun v => VNumber (Number v)))) ].

(** [apply] reads the delay of the timer it builds from the data store. *)
Definition speed (d : DataStore.t) : value := DataStore.get "fb-tabs-speed" d.

End Config.

(** A reading of decimal digit strings, enough to run the configuration on
    examples: anything else is [NaN] here. *)
Definition digit_of (c : Ascii.ascii) : option Z :=
  let n := Z.of_nat (Ascii.nat_of_ascii c) in
  if (48 <=? n) && (n <=? 57) then Some (n - 48) else None.

Fixpoint digits_from (acc : Z) (s : string) : option Z :=
  match s with
  | EmptyString => Some acc
  | String c s' =>
      match digit_of c with
      | Some d => digits_from (10 * acc + d) s'
      | None => None
      end
  end.

Definition number_of_digits (s : string) : JS.num :=
  match s with
  | EmptyString => JS.NaN
  | _ => match digits_from 0 s with
         | Some z => JS.of_Z z
         | None => JS.NaN
         end
  end.

End AutoTab.

(** ** What [apply] reads from the data store (src/wf-auto-tabs.js,
       lines 243-244 and 310) *)

Module Reading.

(** Truthiness of a stored value, as [showProgress ? ... : ...] and
    [if (dataStore.get(...))] test it. *)
Definition truthy_num (n : JS.num) : bool :=
  match n with
  | JS.Num q => negb (Qeq_bool q 0)
  | JS.NaN => false
  | JS.PosInf | JS.NegInf => true
  end.

Definition truthy_value (v : value) : bool :=
  match v with
  | VUndefined | VNull => false
  | VBool b => b
  | VNumber n => truthy_num n
  | VString s => negb (String.eqb s EmptyString)
  end.

Definition showProgress (d : DataStore.t) : bool :=
  truthy_value (DataStore.get "fb-tabs-progress" d).

Definition pauseable (d : DataStore.t) : bool :=
  truthy_value (DataStore.get "fb-tabs-pauseable" d).

End Reading.

(** ** The rotation [apply] sets up (src/wf-auto-tabs.js, lines 230-320) *)

Module Rotation.

(** The two inline styles the script writes on a progress bar. *)
Inductive width : Type :=
  | WidthUnset
  | Width0
  | WidthPercent (p : JS.num).

Inductive opacity : Type :=
  | OpacityUnset
  | Opacity0
  | Opacity1.

Record bar : Type := mkBar {
  bar_width : width;
  bar_opacity : opacity
}.

(** A [.w-tab-link] element: whether it carries the class [w--current]
    when [apply] runs, its [.tab-progress-bar] descendant if it has one,
    and what its [href] property reads (the empty string when there is no
    link target). *)
Record tab : Type := mkTab {
  w_current : bool;
  progressBar : option bar;
  href : string
}.

(** The variables [apply] closes over, with the host state.  A tab is named
    by its position in [tabs].  [style_timeouts] are the pending
    [setTimeout(() => { progressBar.style.width = "0" }, 400)] calls, each
    with its handle, due time and tab; [paints] are the queued
    animation-frame callbacks of the progress callback, each with the
    percentage it was called with.  They never touch the timer, and the
    timer's own callbacks never touch the tabs, so they are kept beside
    the timer's table and queue. *)
Record state : Type := mkState {
  showProgress : bool;
  pauseable : bool;
  tabs : list tab;
  currentTab : option nat;
  world : Timer.World;
  style_timeouts : list (positive * Z * nat);
  paints : list JS.num
}.

Definition set_world (w : Timer.World) (st : state) : state :=
  mkState (showProgress st) (pauseable st) (tabs st) (currentTab st) w
    (style_timeouts st) (paints st).

Definition set_tabs (ts : list tab) (st : state) : state :=
  mkState (showProgress st) (pauseable st) ts (currentTab st) (world st)
    (style_timeouts st) (paints st).

Definition set_currentTab (c : option nat) (st : state) : state :=
  mkState (showProgress st) (pauseable st) (tabs st) c (world st)
    (style_timeouts st) (paints st).

Definition set_bar (b : bar) (t : tab) : tab :=
  mkTab (w_current t) (Some b) (href t).

Definition set_href (h : string) (t : tab) : tab :=
  mkTab (w_current t) (progressBar t) h.

(** Writing on the element at position [i]; there is none past the end. *)
Definition update_tab (i : nat) (f : tab -> tab) (st : state) : state :=
  match tabs st !! i with
  | Some t => set_tabs (<[i := f t]> (tabs st)) st
  | None => st
  end.

(** [tabs.find((tab) => tab.classList.contains("w--current"))] *)
Fixpoint find_current (ts : list tab) : option nat :=
  match ts with
  | [] => None
  | t :: ts' =>
      if w_current t then Some 0%nat else option_map S (find_current ts')
  end.

(** [tabs.indexOf(tab)] for the tab at position [c]; -1 when there is no
    such tab. *)
Definition indexOf (ts : list tab) (c : nat) : Z :=
  if (c <? length ts)%nat then Z.of_nat c else -1.

(** A one-shot timeout of the style code takes a handle like any other. *)
Definition style_setTimeout (ms : Z) (c : nat) (st : state) : state :=
  let w := world st in
  let id := Timer.nextId w in
  mkState (showProgress st) (pauseable st) (tabs st) (currentTab st)
    (Timer.mkWorld (Timer.timer w) (Timer.clock w) (Pos.succ id)
       (Timer.timeouts w) (Timer.frames w))
    (style_timeouts st ++ [(id, Timer.clock w + Z.max 0 ms, c)])
    (paints st).

(** The branch [if (showProgress && currentTab)] of [activateTab], for the
    current tab [c]. *)
Definition fade_out (c : nat) (st : state) : state :=
  match tabs st !! c with
  | Some t =>
      match progressBar t with
      | Some b =>
          let st1 :=
            update_tab c (set_bar (mkBar (bar_width b) Opacity0)) st in
          style_setTimeout 400 c st1
      | None => st
      end
  | None => st
  end.

Definition same_tab (c : option nat) (i : nat) : bool :=
  match c with
  | Some j => Nat.eqb j i
  | None => false
  end.

Definition activateTab (i : nat) (st : state) : state :=
  let st1 :=
    if negb (same_tab (currentTab st) i) then
      let st0 :=
        match currentTab st with
        | Some c => if showProgress st then fade_out c st else st
        | None => st
        end in
      set_currentTab (Some i) st0
    else st in
  let st2 := set_world (Timer.reset (world st1)) st1 in
  set_world (Timer.resume (world st2)) st2.

(** The [click] listener of the tab at position [i]; [stopPropagation]
    changes nothing here. *)
Definition on_click (i : nat) (isTrusted : bool) (st : state) : state :=
  match tabs st !! i with
  | Some _ => activateTab i st
  | None => st
  end.

Definition on_focus (i : nat) (st : state) : state :=
  match tabs st !! i with
  | Some _ => if negb (same_tab (currentTab st) i) then activateTab i st else st
  | None => st
  end.

Definition on_mouseenter (st : state) : state :=
  if pauseable st then set_world (Timer.pause (world st)) st else st.

Definition on_mouseleave (st : state) : state :=
  if pauseable st then set_world (Timer.resume (world st)) st else st.

(** The completion callback handed to the timer.  There is a tab at
    [nextIndex] whenever there is a tab at all; reading [href] off a
    missing one would throw. *)
Definition rotate (st : state) : state :=
  match currentTab st with
  | None => st
  | Some c =>
      let nextIndex := indexOf (tabs st) c + 1 in
      let nextIndex :=
        if Z.of_nat (length (tabs st)) <=? nextIndex then 0 else nextIndex in
      let n := Z.to_nat nextIndex in
      match tabs st !! n with
      | None => st
      | Some nextTab =>
          let h := href nextTab in
          let st1 := update_tab n (set_href EmptyString) st in
          let st2 := on_click n false st1 in
          let st3 := set_currentTab (Some n) st2 in
          if negb (String.eqb h EmptyString)
          then update_tab n (set_href h) st3
          else st3
      end
  end.

(** The progress callback: it only queues the frame callback [paint]. *)
Definition tick (p : JS.num) (st : state) : state :=
  mkState (showProgress st) (pauseable st) (tabs st) (currentTab st)
    (world st) (style_timeouts st) (paints st ++ [p]).

Definition paint (p : JS.num) (st : state) : state :=
  match currentTab st with
  | Some c =>
      match tabs st !! c with
      | Some t =>
          match progressBar t with
          | Some _ => update_tab c (set_bar (mkBar (WidthPercent p) Opacity1)) st
          | None => st
          end
      | None => st
      end
  | None => st
  end.

(** [apply], once the data store is read: [None] when the element has no
    tab, where the code logs and returns.  The style sheet it appends to
    the document head is no part of this state. *)
Definition apply (now speed : Z) (progress hover : bool) (ts : list tab)
  : option state :=
  match ts with
  | [] => None
  | _ =>
      let cur := find_current ts in
      let w := Timer.init now speed progress in
      let w' :=
        match cur with
        | Some _ => Timer.resume w
        | None => w
        end in
      Some (mkState progress hover ts cur w' [] [])
  end.

(** *** Events *)

(** The timer's due timeout runs: the completion callback is called for
    each completion the timer reports. *)
Definition timer_timeout (st : state) : state :=
  let '(w, out) := Timer.fire (world st) in
  fold_left (fun s _ => rotate s) (Timer.fired_times out) (set_world w st).

(** The oldest timeout of the style code runs, if it is due. *)
Definition style_timeout (st : state) : state :=
  match style_timeouts st with
  | (id, due, c) :: rest =>
      if due <=? Timer.clock (world st) then
        let st1 :=
          mkState (showProgress st) (pauseable st) (tabs st) (currentTab st)
            (world st) rest (paints st) in
        match tabs st1 !! c with
        | Some t =>
            match progressBar t with
            | Some b => update_tab c (set_bar (mkBar Width0 (bar_opacity b))) st1
            | None => st1
            end
        | None => st1
        end
      else st
  | [] => st
  end.

(** An animation frame: the queued paints run, the timer's frame callbacks
    run, and the progress callback is called with what they report. *)
Definition animation_frame (st : state) : state :=
  let ps := paints st in
  let st0 :=
    mkState (showProgress st) (pauseable st) (tabs st) (currentTab st)
      (world st) (style_timeouts st) [] in
  let st1 := fold_left (fun s p => paint p s) ps st0 in
  let '(w, out) := Timer.frame (world st1) in
  fold_left (fun s p => tick p s) (Timer.progress_values out)
    (set_world w st1).

Inductive event : Type :=
  | Click (i : nat) (isTrusted : bool)
  | Focus (i : nat)
  | MouseEnter
  | MouseLeave
  | Wait (dt : N)
  | TimerTimeout
  | StyleTimeout
  | AnimationFrame.

Definition step (e : event) (st : state) : state :=
  match e with
  | Click i isTrusted => on_click i isTrusted st
  | Focus i => on_focus i st
  | MouseEnter => on_mouseenter st
  | MouseLeave => on_mouseleave st
  | Wait dt => set_world (Timer.advance dt (world st)) st
  | TimerTimeout => timer_timeout st
  | StyleTimeout => style_timeout st
  | AnimationFrame => animation_frame st
  end.

Definition run (es : list event) (st : state) : state :=
  fold_left (fun s e => step e s) es st.

(** *** Vocabulary *)

(** The position after [c] in a ring of [n] tabs. *)
Definition next_in_ring (n c : nat) : nat := (S c mod n)%nat.

(** The current tab, if any, is one of the tabs. *)
Definition current_valid (st : state) : Prop :=
  match currentTab st with
  | Some c => (c < length (tabs st))%nat
  | None => True
  end.

(** The state of a rotation that [apply] could have set up. *)
Definition well_formed (st : state) : Prop :=
  tabs st <> [] /\ current_valid st /\
  Timer.tick (Timer.timer (world st)) = showProgress st /\
  Timer.one_pending (world st).

(** A completion is pending and due at [due]. *)
Definition armed_for (due : Z) (st : state) : Prop :=
  exists id,
    Timer.timerId (Timer.timer (world st)) = Some id /\
    Timer.timeouts (world st) = [(id, due)].

(** [k] rounds of waiting [dt] and letting the due timeout run. *)
Fixpoint rounds (k : nat) (dt : N) : list event :=
  match k with
  | O => []
  | S k' => Wait dt :: TimerTimeout :: rounds k' dt
  end.

(** Two states differ at most in the styles of the progress bars and in
    the queued style work. *)
Definition same_core (st st' : state) : Prop :=
  showProgress st' = showProgress st /\
  pauseable st' = pauseable st /\
  currentTab st' = currentTab st /\
  world st' = world st /\
  length (tabs st') = length (tabs st) /\
  map href (tabs st') = map href (tabs st).

(** What every event leaves as it is. *)
Definition same_setup (st st' : state) : Prop :=
  showProgress st' = showProgress st /\
  pauseable st' = pauseable st /\
  length (tabs st') = length (tabs st) /\
  map href (tabs st') = map href (tabs st) /\
  Timer.delay (Timer.timer (world st')) =
    Timer.delay (Timer.timer (world st)).

(** The handle of the timer is stale only while no tab is current. *)
Definition never_stuck (st : state) : Prop :=
  Timer.stale (world st) -> currentTab st = None.

(** Where hovering cannot pause, a current tab always has its completion
    pending. *)
Definition keeps_going (st : state) : Prop :=
  pauseable st = false -> currentTab st <> None ->
  Timer.timeouts (world st) <> [].


(** A group of three tabs for examples: the first is current, the second
    has no progress bar and no link target. *)
Definition sample_tabs : list tab :=
  [ mkTab true (Some (mkBar WidthUnset OpacityUnset)) "#one";
    mkTab false None EmptyString;
    mkTab false (Some (mkBar WidthUnset OpacityUnset)) "#three" ].

End Rotation.

(** ** More of JavaScript's arithmetic, for the marquee *)

Module JSMath.

(** [Math.ceil(x)] *)
Definition ceil (x : JS.num) : JS.num :=
  match x with
  | JS.Num q => JS.Num (inject_Z (Qceiling q))
  | _ => x
  end.

(** [x + y] *)
Definition add (x y : JS.num) : JS.num :=
  match x, y with
  | JS.NaN, _ | _, JS.NaN => JS.NaN
  | JS.Num a, JS.Num b => JS.Num (a + b)
  | JS.PosInf, JS.NegInf | JS.NegInf, JS.PosInf => JS.NaN
  | JS.PosInf, _ | _, JS.PosInf => JS.PosInf
  | JS.NegInf, _ | _, JS.NegInf => JS.NegInf
  end.

(** [-x] *)
Definition neg (x : JS.num) : JS.num :=
  match x with
  | JS.Num q => JS.Num (- q)
  | JS.NaN => JS.NaN
  | JS.PosInf => JS.NegInf
  | JS.NegInf => JS.PosInf
  end.

(** [x || d] on numbers: [NaN] and zero give way to [d]. *)
Definition or_else (x d : JS.num) : JS.num :=
  if Reading.truthy_num x then x else d.

(** How often the body of [for (let i = 0; i < bound; i++)] runs; [None]
    when the loop never ends. *)
Definition iterations (bound : JS.num) : option nat :=
  match bound with
  | JS.Num q => Some (Z.to_nat (Qceiling q))
  | JS.NaN | JS.NegInf => Some 0%nat
  | JS.PosInf => None
  end.

End JSMath.

(** ** The marquee (second source file, lines 36-102) *)

Module Marquee.

(** The numeric fields of a [Marquee] instance. *)
Record t : Type := mk {
  marqueeInnerWidth : Z;
  marqueeWidth : Z;
  gap : JS.num;
  duration : JS.num
}.

(** The constructor, given what the page reports: the two [offsetWidth]s
    (whole pixels) and what [parseFloat] makes of the computed [gap] and of
    the attribute [data-marquee-duration]. *)
Definition construct (innerWidth width : Z) (parsedGap parsedDuration : JS.num)
  : t :=
  mk innerWidth width
    (JSMath.or_else parsedGap (JS.of_Z 0))
    (JSMath.or_else parsedDuration (JS.of_Z 20)).

(** [Math.ceil(this.marqueeWidth / this.marqueeInnerWidth) + 1] *)
Definition numCopies (m : t) : JS.num :=
  JSMath.add (JSMath.ceil (JS.div (marqueeWidth m) (marqueeInnerWidth m)))
    (JS.of_Z 1).

(** The clones the loop of [setup] appends to the wrapper; [None] when the
    loop never ends. *)
Definition clones (m : t) : option nat := JSMath.iterations (numCopies m).

(** The blocks in the wrapper after [setup]: the original and its clones. *)
Definition blocks (m : t) : option nat := option_map S (clones m).

(** [this.marqueeInnerWidth + this.gap] *)
Definition itemWidth (m : t) : JS.num :=
  JSMath.add (JS.of_Z (marqueeInnerWidth m)) (gap m).

(** The [x] the tween of [animate] runs to before it is put back to 0. *)
Definition tween_x (m : t) : JS.num := JSMath.neg (itemWidth m).

(** The width of a flex row of [k] blocks of width [w] with gap [g]. *)
Definition row_width (k : nat) (w : Z) (g : Q) : Q :=
  (inject_Z (Z.of_nat k) * inject_Z w + inject_Z (Z.of_nat k - 1) * g)%Q.

End Marquee.

(** ** The hover dot of navigation links (src/wf-auto-tabs.js, lines
       364-408) *)

Module NavLink.

(** The inline styles the script writes, for a link that has both the dot
    and the text element. *)
Record styles : Type := mk {
  dot_opacity : string;
  dot_transform : string;
  dot_transition : string;
  text_transform : string;
  text_transition : string
}.

(** What the [forEach] body does to a link when the page has loaded;
    [isCurrent] is [link.classList.contains("w--current")]. *)
Definition setup (isCurrent : bool) (s : styles) : styles :=
  let s1 :=
    mk "0" "translateX(12px)" "opacity 0.3s ease, transform 0.3s ease-in-out"
       "translateX(0)" "transform 0.3s ease-out" in
  if isCurrent
  then mk "1" "translateX(0)" (dot_transition s1) "translateX(12px)"
         (text_transition s1)
  else s1.

Definition mouseenter (s : styles) : styles :=
  mk "1" "translateX(0px)" (dot_transition s) "translateX(12px)"
     (text_transition s).

Definition mouseleave (isCurrent : bool) (s : styles) : styles :=
  if negb isCurrent
  then mk "0" "translateX(12px)" (dot_transition s) "translateX(0)"
         (text_transition s)
  else mk (dot_opacity s) "translateX(0)" (dot_transition s)
         "translateX(12px)" (text_transition s).

(** A pointer event on the link, with what the class test gives when it
    happens. *)
Inductive event : Type :=
  | Enter
  | Leave (isCurrent : bool).

Definition step (e : event) (s : styles) : styles :=
  match e with
  | Enter => mouseenter s
  | Leave c => mouseleave c s
  end.

Definition run (es : list event) (s : styles) : styles :=
  fold_left (fun x e => step e x) es s.

(** Every [Leave] of the list saw the class test give [c]. *)
Definition class_is (c : bool) (e : event) : Prop :=
  match e with
  | Enter => True
  | Leave c' => c' = c
  end.

End NavLink.

(** ** Vocabulary for further statements *)

Module More.

(** The [resume()] calls of a run. *)
Definition resumes (os : list Timer.op) : nat :=
  length (List.filter
            (fun o => match o with Timer.Resume => true | _ => false end) os).




End More.

(** * Properties of the timer *)

Import Timer.

Ltac break_world w :=
  let x := fresh "x" in
  destruct w as [x ? ? ? ?]; destruct x as [? ? ? ? ?]; cbn [timer clock nextId
    timeouts frames delay tick remaining start timerId] in *.


Lemma final_cons (o : op) (os : list op) (w : World) :
  final (o :: os) w = final os (fst (step o w)).
Proof.
  unfold final; cbn [run]. destruct (step o w) as [w1 o1]; cbn [fst].
  destruct (run os w1); reflexivity.
Qed.

Lemma seen_cons (o : op) (os : list op) (w : World) :
  seen (o :: os) w = snd (step o w) ++ seen os (fst (step o w)).
Proof.
  unfold seen; cbn [run]. destruct (step o w) as [w1 o1]; cbn [fst snd].
  destruct (run os w1); reflexivity.
Qed.

(** An invariant of every step is an invariant of every run. *)
Lemma final_invariant (P : World -> Prop) :
  (forall o w, P w -> P (fst (step o w))) ->
  forall os w, P w -> P (final os w).
Proof.
  intros Hstep os; induction os as [|o os IH]; intros w Hw.
  - exact Hw.
  - rewrite final_cons. apply IH, Hstep, Hw.
Qed.

Lemma run_frame_cbs_config cs ts w :
  same_config w (fst (run_frame_cbs cs ts w)) /\
  clock (fst (run_frame_cbs cs ts w)) = clock w /\
  timeouts (fst (run_frame_cbs cs ts w)) = timeouts w /\
  timer (fst (run_frame_cbs cs ts w)) = timer w.
Proof.
  revert w; induction cs as [|c cs IH]; intros w; cbn [run_frame_cbs].
  - unfold same_config; auto.
  - destruct (run_frame_cb c ts w) as [w1 o1] eqn:E1.
    specialize (IH w1). destruct (run_frame_cbs cs ts w1) as [w2 o2].
    cbn [fst] in *.
    assert (timer w1 = timer w /\ clock w1 = clock w /\
            timeouts w1 = timeouts w) as (Ht & Hc & Hto).
    { destruct c; cbn in E1.
      - injection E1 as <- _; auto.
      - unfold animate in E1. injection E1 as <- _.
        destruct (_ <? _); auto. }
    destruct IH as ((Hd & Htk) & Hc2 & Hto2 & Ht2).
    unfold same_config. rewrite Ht2, Hc2, Hto2, Ht, Hc, Hto. auto.
Qed.

Lemma step_config o w : same_config w (fst (step o w)).
Proof.
  destruct o; cbn [step fst].
  - unfold same_config, resume. break_world w. destruct timerId0; cbn; auto.
    destruct tick0; cbn; auto.
  - unfold same_config, pause. break_world w.
    destruct (JS.truthy start0); cbn; auto.
    destruct timerId0; cbn; auto.
  - unfold same_config. break_world w. destruct timerId0; cbn; auto.
  - unfold same_config; cbn; auto.
  - unfold same_config; cbn; auto.
  - unfold frame. destruct (run_frame_cbs_config (frames w) (clock w)
      (mkWorld (timer w) (clock w) (nextId w) (timeouts w) [])) as (H & _).
    exact H.
Qed.

Lemma final_config os w : same_config w (final os w).
Proof.
  revert w; induction os as [|o os IH]; intros w.
  - unfold same_config; auto.
  - rewrite final_cons. destruct (IH (fst (step o w))) as (H1 & H2).
    destruct (step_config o w) as (H3 & H4).
    unfold same_config; split; congruence.
Qed.


(** ** One pending completion at most *)

Lemma one_pending_init now d tk : one_pending (init now d tk).
Proof. left; reflexivity. Qed.

Lemma one_pending_step o w : one_pending w -> one_pending (fst (step o w)).
Proof.
  intros Hw. destruct o; cbn [step fst].
  - unfold resume. destruct (timerId (timer w)) eqn:Ht; [exact Hw|].
    destruct Hw as [Hw|(id & due & _ & Hid)]; [|congruence].
    right. exists (nextId w), (clock w + Z.max 0 (remaining (timer w))).
    break_world w. cbn in *. subst. destruct tick0; cbn; auto.
  - unfold pause. destruct (JS.truthy (start (timer w))); [|exact Hw].
    left. break_world w. unfold one_pending in Hw; cbn in *.
    destruct Hw as [->|(id & due & -> & ->)]; cbn.
    + destruct timerId0; reflexivity.
    + rewrite Pos.eqb_refl; reflexivity.
  - left. break_world w. unfold one_pending in Hw; cbn in *.
    destruct Hw as [->|(id & due & -> & ->)]; cbn.
    + destruct timerId0; reflexivity.
    + rewrite Pos.eqb_refl; reflexivity.
  - exact Hw.
  - unfold one_pending in *; cbn.
    destruct Hw as [->|(id & due & -> & Hid)]; cbn; auto.
    destruct (is_due (clock w) (id, due)); cbn; eauto.
  - unfold frame.
    destruct (run_frame_cbs_config (frames w) (clock w)
      (mkWorld (timer w) (clock w) (nextId w) (timeouts w) []))
      as (_ & _ & Hto & Ht).
    unfold one_pending in *. rewrite Hto, Ht. exact Hw.
Qed.

Lemma one_pending_final os w : one_pending w -> one_pending (final os w).
Proof. apply final_invariant, one_pending_step. Qed.

Lemma resume_with_handle w : is_Some (timerId (timer w)) -> resume w = w.
Proof. intros [id Hid]. unfold resume. rewrite Hid. reflexivity. Qed.

Lemma resume_sets_handle w : is_Some (timerId (timer (resume w))).
Proof.
  unfold resume. destruct (timerId (timer w)) eqn:Ht.
  - rewrite Ht; eauto.
  - break_world w; cbn. destruct tick0; cbn; eauto.
Qed.

Lemma keeps_handle_step o w :
  keeps_handle o = true -> is_Some (timerId (timer w)) ->
  timer (fst (step o w)) = timer w.
Proof.
  intros Ho Hid. destruct o; try discriminate; cbn [step fst].
  - rewrite resume_with_handle; auto.
  - reflexivity.
  - reflexivity.
  - unfold frame.
    destruct (run_frame_cbs_config (frames w) (clock w)
      (mkWorld (timer w) (clock w) (nextId w) (timeouts w) []))
      as (_ & _ & _ & Ht).
    exact Ht.
Qed.

Lemma keeps_handle_final os w :
  forallb keeps_handle os = true -> is_Some (timerId (timer w)) ->
  timer (final os w) = timer w.
Proof.
  revert w; induction os as [|o os IH]; intros w Hos Hid.
  - reflexivity.
  - cbn in Hos. apply andb_true_iff in Hos as [Ho Hos].
    rewrite final_cons.
    pose proof (keeps_handle_step o w Ho Hid) as Ht.
    rewrite IH; auto. rewrite Ht; exact Hid.
Qed.

(** C5. At most one completion is pending in every reachable state, and a
    [resume()] issued after an earlier [resume()] with no [pause()] or
    [reset()] in between changes nothing at all: no second fire is
    scheduled. *)
Theorem single_pending_fire now d tk os :
  let w := final os (init now d tk) in
  (length (timeouts w) <= 1)%nat /\
  forall mid, forallb keeps_handle mid = true ->
    let w2 := final mid (resume w) in
    resume w2 = w2 /\ (length (timeouts (resume w2)) <= 1)%nat.
Proof.
  intros w.
  assert (Hone : forall v, one_pending v -> (length (timeouts v) <= 1)%nat).
  { intros v [->|(id & due & -> & _)]; cbn; lia. }
  assert (Hw : one_pending w).
  { apply one_pending_final, one_pending_init. }
  split; [apply Hone, Hw|].
  intros mid Hmid w2.
  assert (Hh : is_Some (timerId (timer w2))).
  { unfold w2. rewrite keeps_handle_final; auto using resume_sets_handle. }
  rewrite resume_with_handle by exact Hh. split; [reflexivity|].
  apply Hone. unfold w2. apply one_pending_final.
  apply (one_pending_step Resume), Hw.
Qed.

Lemma single_pending_fire_witness :
  let w := final [Resume; Wait 10] (init 1000 5000 true) in
  (length (timeouts w) <= 1)%nat /\
  resume (final [Wait 20; Resume; Frame] (resume w)) =
  final [Wait 20; Resume; Frame] (resume w).
Proof.
  intros w.
  destruct (single_pending_fire 1000 5000 true [Resume; Wait 10]) as [H1 H2].
  split; [exact H1|].
  exact (proj1 (H2 [Wait 20; Resume; Frame] eq_refl)).
Defined.

(** ** After the completion has run *)

Lemma fired_times_app l1 l2 :
  fired_times (l1 ++ l2) = fired_times l1 ++ fired_times l2.
Proof.
  induction l1 as [|[t0|p] l1 IH]; cbn; [reflexivity| |exact IH].
  rewrite IH; reflexivity.
Qed.

Lemma progress_values_app l1 l2 :
  progress_values (l1 ++ l2) = progress_values l1 ++ progress_values l2.
Proof.
  induction l1 as [|[t0|p] l1 IH]; cbn; [reflexivity|exact IH|].
  rewrite IH; reflexivity.
Qed.

Lemma frame_cbs_never_fire cs ts w :
  fired_times (snd (run_frame_cbs cs ts w)) = [].
Proof.
  revert w; induction cs as [|c cs IH]; intros w; cbn [run_frame_cbs].
  - reflexivity.
  - destruct (run_frame_cb c ts w) as [w1 o1] eqn:E1.
    specialize (IH w1). destruct (run_frame_cbs cs ts w1) as [w2 o2].
    cbn [snd] in *. rewrite fired_times_app, IH, app_nil_r.
    destruct c; cbn in E1.
    + injection E1 as _ <-; reflexivity.
    + unfold animate in E1. injection E1 as _ <-.
      destruct (tick (timer w)); reflexivity.
Qed.

Lemma frame_keeps w :
  timer (fst (frame w)) = timer w /\ clock (fst (frame w)) = clock w /\
  timeouts (fst (frame w)) = timeouts w /\
  fired_times (snd (frame w)) = [].
Proof.
  unfold frame.
  destruct (run_frame_cbs_config (frames w) (clock w)
    (mkWorld (timer w) (clock w) (nextId w) (timeouts w) []))
    as (_ & Hc & Hto & Ht).
  rewrite Ht, Hc, Hto. cbn. repeat split; auto using frame_cbs_never_fire.
Qed.

Lemma stale_step o w :
  stale w -> restores w o = false ->
  stale (fst (step o w)) /\ timer (fst (step o w)) = timer w /\
  fired_times (snd (step o w)) = [].
Proof.
  intros [Hid Hto] Ho. destruct o; cbn [step fst snd]; try discriminate.
  - rewrite resume_with_handle by exact Hid. repeat split; auto.
  - cbn in Ho. unfold pause. rewrite Ho. repeat split; auto.
  - repeat split; auto.
  - unfold fire; cbn. rewrite Hto; cbn. repeat split; auto.
  - unfold frame.
    destruct (run_frame_cbs_config (frames w) (clock w)
      (mkWorld (timer w) (clock w) (nextId w) (timeouts w) []))
      as (_ & _ & Hto' & Ht).
    split; [|split]; [| exact Ht | apply frame_cbs_never_fire].
    unfold stale. rewrite Ht, Hto'. auto.
Qed.

Lemma stale_final os w :
  stale w -> forallb (fun o => negb (restores w o)) os = true ->
  timer (final os w) = timer w /\ stale (final os w) /\
  fired_times (seen os w) = [].
Proof.
  revert w; induction os as [|o os IH]; intros w Hw Hos.
  - split; [reflexivity|]. split; [exact Hw|reflexivity].
  - cbn in Hos. apply andb_true_iff in Hos as [Ho Hos].
    apply negb_true_iff in Ho.
    destruct (stale_step o w Hw Ho) as (Hs & Ht & Hf).
    rewrite final_cons, seen_cons, fired_times_app, Hf.
    assert (Hos' : forallb (fun o0 => negb (restores (fst (step o w)) o0)) os
                   = true).
    { apply forallb_forall. intros o0 Hin.
      rewrite forallb_forall in Hos. rewrite <- (Hos o0 Hin).
      destruct o0; cbn; try reflexivity. rewrite Ht; reflexivity. }
    destruct (IH _ Hs Hos') as (Ht' & Hs' & Hf').
    rewrite Ht', Ht, Hf'. split; [reflexivity|]. split; [exact Hs'|reflexivity].
Qed.

(** C10. When the scheduled completion runs, the handle stays in [timerId];
    from then on [resume()] leaves the whole world as it is, and so does any
    sequence of events other than [reset()] and a [pause()] that finds
    [start] nonzero: the timer keeps its fields, nothing is pending and no
    completion is observed.  After [reset()], or such a [pause()], the next
    [resume()] schedules a fire again. *)
Theorem fired_handle_blocks_resume w id due :
  timerId (timer w) = Some id -> timeouts w = [(id, due)] -> due <= clock w ->
  let w' := fst (step Fire w) in
  snd (step Fire w) = [Fired (clock w)] /\
  timerId (timer w') = Some id /\ timeouts w' = [] /\
  resume w' = w' /\
  (forall os, forallb (fun o => negb (restores w' o)) os = true ->
     timer (final os w') = timer w' /\ timeouts (final os w') = [] /\
     fired_times (seen os w') = []) /\
  (forall o, restores w' o = true ->
     let w'' := fst (step o w') in
     timeouts (resume w'') =
       [(nextId w', clock w + Z.max 0 (remaining (timer w'')))]).
Proof.
  intros Hid Hto Hdue w'.
  assert (Hd : is_due (clock w) (id, due) = true).
  { unfold is_due; cbn. apply Z.leb_le, Hdue. }
  assert (E : step Fire w =
    (mkWorld (timer w) (clock w) (nextId w) [] (frames w),
     [Fired (clock w)])).
  { cbn [step]. unfold fire. rewrite Hto. cbn [List.filter map].
    rewrite Hd. reflexivity. }
  unfold w'. rewrite E. cbn [fst snd timer timeouts nextId].
  set (v := mkWorld (timer w) (clock w) (nextId w) [] (frames w)).
  assert (Hs : stale v) by (split; [cbn; rewrite Hid; eauto|reflexivity]).
  split; [reflexivity|]. split; [exact Hid|]. split; [reflexivity|].
  split; [apply resume_with_handle; cbn; rewrite Hid; eauto|].
  split.
  - intros os Hos.
    destruct (stale_final os v Hs Hos) as (Ht & [_ Hx] & Hf). auto.
  - intros o Ho. destruct o; try discriminate; cbn [step fst].
    + cbn in Ho. unfold pause. subst v; cbn in *. rewrite Ho.
      break_world w. cbn in *. subst. cbn. destruct tick0; reflexivity.
    + subst v. break_world w. cbn in *. subst. cbn.
      destruct tick0; reflexivity.
Qed.

Lemma fired_handle_blocks_resume_witness :
  let w := final [Resume; Wait 5000] (init 1000 5000 true) in
  let w' := fst (step Fire w) in
  snd (step Fire w) = [Fired 6000] /\ resume w' = w' /\
  timeouts (final [Resume; Frame; Wait 100; Resume] w') = [] /\
  timeouts (resume (reset w')) = [(2%positive, 11000)].
Proof.
  intros w w'.
  destruct (fired_handle_blocks_resume w 1%positive 6000 eq_refl eq_refl
              ltac:(vm_compute; discriminate))
    as (H1 & _ & _ & H4 & H5 & H6).
  split; [exact H1|]. split; [exact H4|]. split.
  - exact (proj1 (proj2 (H5 [Resume; Frame; Wait 100; Resume] eq_refl))).
  - exact (H6 Reset eq_refl).
Defined.

(** ** pause() and resume() *)

(** What [pause()] does when it finds [start] nonzero. *)
Lemma pause_running w :
  JS.truthy (start (timer w)) = true ->
  let w' := pause w in
  remaining (timer w') = remaining (timer w) - (clock w - start (timer w)) /\
  start (timer w') = 0 /\ timerId (timer w') = None /\
  frames w' = frames w /\
  (one_pending w -> timeouts w' = []).
Proof.
  intros Hs w'. unfold w', pause. rewrite Hs. break_world w.
  unfold one_pending; destruct timerId0 as [h|]; cbn;
    (do 4 (split; [reflexivity|])).
  - intros [->|(id & due & -> & [= ->])]; cbn; [reflexivity|].
    rewrite Pos.eqb_refl; reflexivity.
  - intros [->|(id & due & _ & [=])]; reflexivity.
Qed.

(** What [resume()] does when no handle is stored. *)
Lemma resume_idle w :
  timerId (timer w) = None ->
  let w' := resume w in
  timeouts w' =
    timeouts w ++ [(nextId w, clock w + Z.max 0 (remaining (timer w)))] /\
  timerId (timer w') = Some (nextId w) /\
  remaining (timer w') = remaining (timer w) /\
  start (timer w') = (if tick (timer w) then clock w else start (timer w)).
Proof.
  intros Hid w'. unfold w', resume. rewrite Hid. break_world w; cbn.
  destruct tick0; cbn; auto.
Qed.

Lemma no_tick_step o w :
  tick (timer w) = false -> start (timer w) = 0 ->
  tick (timer (fst (step o w))) = false /\ start (timer (fst (step o w))) = 0.
Proof.
  intros Htk Hs. destruct (step_config o w) as (_ & Htk').
  split; [congruence|].
  destruct o; cbn [step fst].
  - unfold resume. destruct (timerId (timer w)); [exact Hs|].
    break_world w; cbn in *. subst; reflexivity.
  - unfold pause. rewrite Hs. cbn. exact Hs.
  - reflexivity.
  - exact Hs.
  - exact Hs.
  - unfold frame.
    destruct (run_frame_cbs_config (frames w) (clock w)
      (mkWorld (timer w) (clock w) (nextId w) (timeouts w) []))
      as (_ & _ & _ & Ht).
    rewrite Ht. exact Hs.
Qed.

(** C1. A timer constructed without a progress callback never records
    [start], so in every state it reaches [pause()] leaves the world as it
    is; with delay 5000, [resume()] at clock 1000 and [pause()] at clock
    3000, the completion stays scheduled for 6000 and [remaining] stays
    5000. *)
Theorem pause_without_progress_callback now d os :
  let w := final os (init now d false) in
  (start (timer w) = 0 /\ pause w = w) /\
  let w0 := final [Resume; Wait 2000; Pause] (init 1000 5000 false) in
  timeouts w0 = [(1%positive, 6000)] /\ remaining (timer w0) = 5000 /\
  timerId (timer w0) = Some 1%positive /\ start (timer w0) = 0.
Proof.
  intros w. split; [|repeat split; reflexivity].
  assert (H : tick (timer w) = false /\ start (timer w) = 0).
  { unfold w. apply (final_invariant
      (fun v => tick (timer v) = false /\ start (timer v) = 0)).
    - intros o v [H1 H2]. apply no_tick_step; assumption.
    - split; reflexivity. }
  destruct H as [_ Hs]. split; [exact Hs|].
  unfold pause. rewrite Hs. reflexivity.
Qed.

(** C2. Without a progress callback the first [resume()] schedules the
    completion [delay] from now but leaves [start] at 0: the time of the
    call is not recorded. *)
Theorem resume_without_progress_callback now d :
  let w := resume (init now d false) in
  timeouts w = [(1%positive, now + Z.max 0 d)] /\
  timerId (timer w) = Some 1%positive /\
  start (timer w) = 0 /\
  start (timer (resume (init 1000 5000 false))) <> 1000.
Proof. cbn. repeat split; try reflexivity. discriminate. Qed.

(** With a progress callback the first [resume()] records the clock. *)
Lemma resume_with_progress_callback now d :
  let w := resume (init now d true) in
  timeouts w = [(1%positive, now + Z.max 0 d)] /\
  timerId (timer w) = Some 1%positive /\
  start (timer w) = now /\
  frames w = [Tick0; Animate None].
Proof. cbn. repeat split; reflexivity. Qed.

(** C3. Without a progress callback, pausing after 2000 and resuming 500
    later does not move the completion: it runs 5000 after the first
    [resume()], having run for 4500 only; in general the entry scheduled
    by the first [resume()] is still the pending one. *)
Theorem pause_resume_without_progress_callback now d e gap :
  timeouts (final [Resume; Wait e; Pause; Wait gap; Resume]
              (init now d false)) = [(1%positive, now + Z.max 0 d)] /\
  seen [Resume; Wait 2000; Pause; Wait 500; Resume; Wait 2500; Fire]
    (init 1000 5000 false) = [Fired 6000].
Proof. split; reflexivity. Qed.

(** With a progress callback (and a clock that does not read 0 at the first
    [resume()]), the second segment lasts what the first one left. *)
Lemma pause_resume_with_progress_callback now d e gap :
  now <> 0 ->
  let w := final [Resume; Wait e; Pause; Wait gap; Resume] (init now d true) in
  remaining (timer w) = d - Z.of_N e /\
  timeouts w =
    [(2%positive, now + Z.of_N e + Z.of_N gap + Z.max 0 (d - Z.of_N e))].
Proof.
  intros Hnow. unfold final; cbn -[Z.add Z.sub Z.max Z.of_N].
  unfold pause; cbn -[Z.add Z.sub Z.max Z.of_N].
  assert (Ht : JS.truthy now = true).
  { unfold JS.truthy. apply negb_true_iff, Z.eqb_neq, Hnow. }
  rewrite Ht; cbn -[Z.add Z.sub Z.max Z.of_N].
  replace (now + Z.of_N e - now) with (Z.of_N e) by lia.
  split; reflexivity.
Qed.

Example pause_resume_scenario :
  seen [Resume; Wait 2000; Pause; Wait 500; Resume; Wait 2999; Fire; Wait 1;
        Fire; Wait 5000; Fire] (init 1000 5000 true) = [Fired 6500].
Proof. reflexivity. Qed.

(** A scheduled completion runs at most once, and not before it is due, as
    long as neither [pause()] nor [reset()] is called. *)
Lemma armed_fires_once os w id due :
  timerId (timer w) = Some id -> timeouts w = [(id, due)] ->
  forallb keeps_handle os = true ->
  match fired_times (seen os w) with
  | [] => True
  | [t0] => due <= t0
  | _ => False
  end.
Proof.
  revert w; induction os as [|o os IH]; intros w Hid Hto Hos; [exact I|].
  cbn in Hos. apply andb_true_iff in Hos as [Ho Hos].
  rewrite seen_cons, fired_times_app.
  assert (Hsome : is_Some (timerId (timer w))) by (rewrite Hid; eauto).
  destruct o; try discriminate; cbn [step fst snd fired_times app].
  - rewrite resume_with_handle by exact Hsome. apply IH; auto.
  - apply IH; auto.
  - unfold fire; cbn [fst snd]. rewrite Hto. cbn [List.filter map].
    unfold is_due; cbn [snd].
    destruct (due <=? clock w) eqn:E; cbn [negb map fired_times app].
    + assert (Hs : stale (mkWorld (timer w) (clock w) (nextId w) []
                            (frames w))) by (split; auto).
      assert (Hq : forallb (fun o => negb (restores
                     (mkWorld (timer w) (clock w) (nextId w) [] (frames w)) o))
                     os = true).
      { apply forallb_forall. intros o Hin.
        rewrite forallb_forall in Hos. specialize (Hos o Hin).
        destruct o; try discriminate; reflexivity. }
      destruct (stale_final os _ Hs Hq) as (_ & _ & Hf). rewrite Hf.
      apply Z.leb_le, E.
    + apply IH; auto.
  - destruct (frame_keeps w) as (T & _ & O & F). rewrite F. cbn [app].
    apply IH; auto; congruence.
Qed.

Lemma completion_fires_once now d tk os :
  forallb keeps_handle os = true ->
  match fired_times (seen os (resume (init now d tk))) with
  | [] => True
  | [t0] => now + Z.max 0 d <= t0
  | _ => False
  end.
Proof.
  apply (armed_fires_once os (resume (init now d tk)) 1%positive);
    destruct tk; reflexivity.
Qed.

Example reset_before_fire :
  seen [Resume; Reset; Wait 3000; Fire; Wait 1000; Resume; Wait 2999; Fire;
        Wait 1; Fire] (init 1000 3000 true) = [Fired 8000].
Proof. reflexivity. Qed.

(** ** The range of [remaining] *)

Lemma truthy_true z : JS.truthy z = true <-> z <> 0.
Proof.
  unfold JS.truthy. rewrite negb_true_iff, Z.eqb_neq. reflexivity.
Qed.

Lemma upper_step o w :
  remaining (timer w) <= delay (timer w) /\
  (start (timer w) = 0 \/ start (timer w) <= clock w) ->
  let w' := fst (step o w) in
  remaining (timer w') <= delay (timer w') /\
  (start (timer w') = 0 \/ start (timer w') <= clock w').
Proof.
  intros [Hr Hs]. destruct o; cbn [step fst]; cbn zeta.
  - unfold resume. destruct (timerId (timer w)); [auto|].
    break_world w; cbn in *. destruct tick0; cbn; split; auto; right; lia.
  - unfold pause. destruct (JS.truthy (start (timer w))) eqn:E; [|auto].
    apply truthy_true in E. break_world w.
    destruct timerId0; cbn in *; split; auto; lia.
  - break_world w. destruct timerId0; cbn; split; auto; lia.
  - cbn. split; [exact Hr|]. destruct Hs; [auto|right; lia].
  - cbn. auto.
  - unfold frame.
    destruct (run_frame_cbs_config (frames w) (clock w)
      (mkWorld (timer w) (clock w) (nextId w) (timeouts w) []))
      as (_ & Hc & _ & Ht).
    rewrite Ht, Hc. cbn. auto.
Qed.

Lemma lower_step o w :
  0 <= delay (timer w) -> 0 <= remaining (timer w) ->
  match o with
  | Pause =>
      JS.truthy (start (timer w)) = true ->
      clock w <= start (timer w) + remaining (timer w)
  | _ => True
  end ->
  0 <= remaining (timer (fst (step o w))).
Proof.
  intros Hd Hr Ho. destruct o; cbn [step fst].
  - unfold resume. destruct (timerId (timer w)); [auto|].
    break_world w; cbn in *. destruct tick0; cbn; auto.
  - unfold pause. destruct (JS.truthy (start (timer w))) eqn:E; [|auto].
    specialize (Ho eq_refl). break_world w.
    destruct timerId0; cbn in *; lia.
  - break_world w. destruct timerId0; cbn in *; lia.
  - exact Hr.
  - exact Hr.
  - unfold frame.
    destruct (run_frame_cbs_config (frames w) (clock w)
      (mkWorld (timer w) (clock w) (nextId w) (timeouts w) []))
      as (_ & _ & _ & Ht).
    rewrite Ht. exact Hr.
Qed.

Lemma lower_final os w :
  0 <= delay (timer w) -> 0 <= remaining (timer w) -> timely os w ->
  0 <= remaining (timer (final os w)).
Proof.
  revert w; induction os as [|o os IH]; intros w Hd Hr Hos.
  - exact Hr.
  - destruct Hos as [Ho Hos]. rewrite final_cons. apply IH; auto.
    + destruct (step_config o w) as [E _]. rewrite E. exact Hd.
    + apply lower_step; auto.
Qed.

(** C4, as the code has it.  For a non-negative delay and in every run,
    [remaining] never exceeds [delay]; it is non-negative as long as every
    [pause()] that finds the timer running is issued no later than
    [remaining] after the [resume()] that started the segment. *)
Theorem remaining_bounds now d tk os :
  0 <= d ->
  let w := final os (init now d tk) in
  remaining (timer w) <= delay (timer w) /\
  (timely os (init now d tk) -> 0 <= remaining (timer w)).
Proof.
  intros Hd w. split.
  - apply (final_invariant (fun v =>
      remaining (timer v) <= delay (timer v) /\
      (start (timer v) = 0 \/ start (timer v) <= clock v))).
    + intros o v Hv. apply upper_step, Hv.
    + cbn. split; [lia|auto].
  - intros Ht. apply lower_final; auto.
Qed.

Lemma remaining_bounds_witness :
  let w := final [Resume; Wait 2000; Pause; Wait 500; Resume]
             (init 1000 5000 true) in
  remaining (timer w) <= delay (timer w) /\ 0 <= remaining (timer w).
Proof.
  intros w.
  destruct (remaining_bounds 1000 5000 true
              [Resume; Wait 2000; Pause; Wait 500; Resume]
              ltac:(lia)) as [H1 H2].
  split; [exact H1|]. apply H2. cbn. repeat split; intros; lia.
Defined.

(** C4, as stated, fails: a [pause()] issued 6000 after the [resume()] of a
    5000 timer leaves [remaining] at -1000. *)
Lemma remaining_goes_negative :
  let w := final [Resume; Wait 6000; Pause] (init 1000 5000 true) in
  remaining (timer w) = -1000 /\
  ~ (0 <= remaining (timer w) /\ remaining (timer w) <= delay (timer w)).
Proof.
  cbn zeta.
  assert (E : remaining (timer (final [Resume; Wait 6000; Pause]
                                  (init 1000 5000 true))) = -1000)
    by reflexivity.
  rewrite E. split; [reflexivity|]. intros [H _]. lia.
Qed.

(** ** Progress loops *)

Lemma count_animate_app cs1 cs2 :
  count_animate (cs1 ++ cs2) = (count_animate cs1 + count_animate cs2)%nat.
Proof.
  unfold count_animate. rewrite List.filter_app, length_app. reflexivity.
Qed.

(** A frame starts no loop: every queued [animate] re-queues itself at most
    once, and the one-off callback queues nothing. *)
Lemma run_frame_cbs_loops cs ts w :
  (count_animate (frames (fst (run_frame_cbs cs ts w))) <=
   count_animate (frames w) + count_animate cs)%nat.
Proof.
  revert w; induction cs as [|c cs IH]; intros w; cbn [run_frame_cbs].
  - cbn. lia.
  - destruct (run_frame_cb c ts w) as [w1 o1] eqn:E1.
    specialize (IH w1). destruct (run_frame_cbs cs ts w1) as [w2 o2].
    cbn [fst] in *.
    assert (H1 : (count_animate (frames w1) + count_animate cs <=
                  count_animate (frames w) + count_animate (c :: cs))%nat).
    { destruct c; cbn in E1.
      - injection E1 as <- _.
        change (count_animate (Tick0 :: cs)) with (count_animate cs). lia.
      - unfold animate in E1. injection E1 as <- _.
        change (count_animate (Animate start0 :: cs))
          with (S (count_animate cs)).
        destruct (_ <? _); cbn [frames requestAnimationFrame]; [|lia].
        rewrite count_animate_app.
        match goal with
        | |- context [count_animate [Animate ?x]] =>
            change (count_animate [Animate x]) with 1%nat
        end. lia. }
    lia.
Qed.

Lemma frame_loops w : (active_loops (fst (frame w)) <= active_loops w)%nat.
Proof.
  unfold frame, active_loops.
  pose proof (run_frame_cbs_loops (frames w) (clock w)
    (mkWorld (timer w) (clock w) (nextId w) (timeouts w) [])) as H.
  cbn in H. exact H.
Qed.

Lemma pause_loops w : frames (pause w) = frames w.
Proof.
  unfold pause. destruct (JS.truthy (start (timer w))); [|reflexivity].
  break_world w. destruct timerId0; reflexivity.
Qed.

Lemma reset_loops w : frames (reset w) = frames w.
Proof. break_world w. destruct timerId0; reflexivity. Qed.

Lemma resume_loops w :
  active_loops (resume w) =
  match timerId (timer w) with
  | None => if tick (timer w) then S (active_loops w) else active_loops w
  | Some _ => active_loops w
  end.
Proof.
  unfold resume, active_loops. break_world w. destruct timerId0; [reflexivity|].
  destruct tick0; cbn; [|reflexivity].
  rewrite <- app_assoc.
  fold (count_animate (frames0 ++ [Tick0] ++ [Animate None])).
  rewrite count_animate_app. cbn. unfold count_animate. lia.
Qed.

Lemma calm_step o w :
  (active_loops w <= 1)%nat ->
  match o with
  | Resume =>
      timerId (timer w) = None -> tick (timer w) = true ->
      active_loops w = 0%nat
  | _ => True
  end ->
  (active_loops (fst (step o w)) <= 1)%nat.
Proof.
  intros Hw Ho. destruct o; cbn [step fst].
  - rewrite resume_loops. destruct (timerId (timer w)); [exact Hw|].
    destruct (tick (timer w)); [|exact Hw]. rewrite Ho; auto.
  - unfold active_loops. rewrite pause_loops. exact Hw.
  - unfold active_loops. rewrite reset_loops. exact Hw.
  - exact Hw.
  - exact Hw.
  - pose proof (frame_loops w). lia.
Qed.

Lemma calm_final os w :
  (active_loops w <= 1)%nat -> calm os w ->
  (active_loops (final os w) <= 1)%nat.
Proof.
  revert w; induction os as [|o os IH]; intros w Hw Hos.
  - exact Hw.
  - destruct Hos as [Ho Hos]. rewrite final_cons.
    apply IH; [apply calm_step; assumption|exact Hos].
Qed.

(** Without [pause()] and [reset()] only the first [resume()] can start a
    loop. *)
Lemma keeps_handle_calm os w :
  forallb keeps_handle os = true ->
  (timerId (timer w) = None -> active_loops w = 0%nat) ->
  calm os w.
Proof.
  revert w; induction os as [|o os IH]; intros w Hos Hw; [exact I|].
  cbn in Hos. apply andb_true_iff in Hos as [Ho Hos]. split.
  - destruct o; auto.
  - apply IH; [exact Hos|]. intros Hnone.
    destruct (timerId (timer w)) as [id|] eqn:Hid.
    + rewrite keeps_handle_step in Hnone by (rewrite ?Hid; eauto).
      congruence.
    + destruct o; try discriminate; cbn [step fst] in *.
      * pose proof (resume_sets_handle w) as [h Hh]. congruence.
      * auto.
      * auto.
      * pose proof (frame_loops w). specialize (Hw eq_refl). lia.
Qed.

(** C7, as the code has it.  [pause()] and [reset()] leave the queued
    progress loops alone, a frame starts none, and a [resume()] that
    schedules starts exactly one when a progress callback was supplied.
    Hence at most one loop is alive in every run in which each such
    [resume()] finds no loop alive, in particular in every run without
    [pause()] and [reset()]. *)
Theorem progress_loops now d tk os :
  (forall w,
     active_loops (pause w) = active_loops w /\
     active_loops (reset w) = active_loops w /\
     (active_loops (fst (frame w)) <= active_loops w)%nat /\
     (timerId (timer w) = None -> tick (timer w) = true ->
      active_loops (resume w) = S (active_loops w))) /\
  (calm os (init now d tk) ->
   (active_loops (final os (init now d tk)) <= 1)%nat) /\
  (forallb keeps_handle os = true ->
   (active_loops (final os (init now d tk)) <= 1)%nat).
Proof.
  split; [|split].
  - intros w. unfold active_loops at 1 2 3 4.
    rewrite pause_loops, reset_loops.
    split; [reflexivity|]. split; [reflexivity|].
    split; [apply frame_loops|].
    intros Hid Htk. rewrite resume_loops, Hid, Htk. reflexivity.
  - apply calm_final. cbn. lia.
  - intros Hos. apply calm_final; [cbn; lia|].
    apply keeps_handle_calm; auto.
Qed.

Lemma progress_loops_witness :
  let w := final [Resume; Frame; Wait 5000; Frame; Reset; Resume; Frame]
             (init 1000 5000 true) in
  (active_loops w <= 1)%nat /\
  (active_loops (final [Resume; Frame; Resume; Wait 10; Frame]
                   (init 1000 5000 true)) <= 1)%nat /\
  active_loops (resume (init 1000 5000 true)) = 1%nat.
Proof.
  intros w.
  destruct (progress_loops 1000 5000 true
    [Resume; Frame; Wait 5000; Frame; Reset; Resume; Frame]) as (H0 & H1 & _).
  destruct (progress_loops 1000 5000 true
    [Resume; Frame; Resume; Wait 10; Frame]) as (_ & _ & H2).
  split; [|split].
  - apply H1. cbn. repeat split; auto; intros; discriminate.
  - apply H2. reflexivity.
  - exact (proj2 (proj2 (proj2 (H0 (init 1000 5000 true)))) eq_refl eq_refl).
Defined.

(** C7, as stated, fails: [pause()] followed by [resume()] while the first
    loop is still ticking leaves two loops in the frame queue. *)
Lemma two_progress_loops :
  let w := final [Resume; Frame; Wait 2000; Pause; Wait 500; Resume; Frame]
             (init 1000 5000 true) in
  frames w = [Animate (Some 1000); Animate (Some 3500)] /\
  ~ (active_loops w <= 1)%nat.
Proof.
  cbn zeta. split; [reflexivity|].
  assert (E : active_loops
    (final [Resume; Frame; Wait 2000; Pause; Wait 500; Resume; Frame]
       (init 1000 5000 true)) = 2%nat) by reflexivity.
  rewrite E. lia.
Qed.

(** ** reset() against a fresh timer *)

Lemma handle_state_cases w1 w2 :
  same_handle_state w1 w2 ->
  (timerId (timer w1) = None /\ timerId (timer w2) = None /\
   timeouts w1 = [] /\ timeouts w2 = []) \/
  (exists i1 i2, timerId (timer w1) = Some i1 /\ timerId (timer w2) = Some i2 /\
     timeouts w1 = [] /\ timeouts w2 = []) \/
  (exists i1 i2 due,
     timerId (timer w1) = Some i1 /\ timerId (timer w2) = Some i2 /\
     timeouts w1 = [(i1, due)] /\ timeouts w2 = [(i2, due)]).
Proof.
  intros [H|[([[i1 H1] H3] & [[i2 H2] H4])|
    (i1 & i2 & due & H1 & H3 & H2 & H4)]].
  - left; exact H.
  - right; left. exists i1, i2. auto.
  - right; right. exists i1, i2, due. auto.
Qed.

Lemma handle_idle w1 w2 :
  timerId (timer w1) = None -> timerId (timer w2) = None ->
  timeouts w1 = [] -> timeouts w2 = [] -> same_handle_state w1 w2.
Proof. intros; left; auto. Qed.

Lemma handle_stale w1 w2 i1 i2 :
  timerId (timer w1) = Some i1 -> timerId (timer w2) = Some i2 ->
  timeouts w1 = [] -> timeouts w2 = [] -> same_handle_state w1 w2.
Proof.
  intros H1 H2 H3 H4; right; left. unfold stale. rewrite H1, H2. eauto.
Qed.

Lemma handle_armed w1 w2 i1 i2 due :
  timerId (timer w1) = Some i1 -> timerId (timer w2) = Some i2 ->
  timeouts w1 = [(i1, due)] -> timeouts w2 = [(i2, due)] ->
  same_handle_state w1 w2.
Proof. intros; right; right. exists i1, i2, due. auto. Qed.

Lemma clear_idle w1 w2 :
  same_handle_state w1 w2 ->
  timerId (timer (clear w1)) = None /\ timerId (timer (clear w2)) = None /\
  timeouts (clear w1) = [] /\ timeouts (clear w2) = [].
Proof.
  intros H. apply handle_state_cases in H.
  unfold clear, clearTimeout, with_timer.
  destruct H as [(H1 & H2 & H3 & H4)|[(i1 & i2 & H1 & H2 & H3 & H4)|
    (i1 & i2 & due & H1 & H2 & H3 & H4)]]; rewrite H1, H2; cbn;
    rewrite ?H3, ?H4; cbn; rewrite ?Pos.eqb_refl; cbn; auto.
Qed.

Lemma clear_fields w :
  delay (timer (clear w)) = delay (timer w) /\
  tick (timer (clear w)) = tick (timer w) /\
  remaining (timer (clear w)) = remaining (timer w) /\
  start (timer (clear w)) = start (timer w) /\
  clock (clear w) = clock w.
Proof.
  unfold clear, clearTimeout, with_timer.
  destruct (timerId (timer w)); cbn; auto.
Qed.

Lemma alike_step o w1 w2 :
  alike w1 w2 ->
  alike (fst (step o w1)) (fst (step o w2)) /\
  fired_times (snd (step o w1)) = fired_times (snd (step o w2)).
Proof.
  intros (Hd & Htk & Hr & Hs & Hc & Hh).
  destruct o; cbn [step fst snd].
  - split; [|reflexivity].
    pose proof (handle_state_cases _ _ Hh) as
      [(H1 & H2 & H3 & H4)|[(i1 & i2 & H1 & H2 & H3 & H4)|
      (i1 & i2 & due & H1 & H2 & H3 & H4)]];
      unfold resume; rewrite H1, H2;
      try (unfold alike; auto 10; fail).
    unfold setTimeout. rewrite H3, H4, Hr, Hc.
    cbn [with_timer timer set_timerId tick]. rewrite Htk.
    destruct (tick (timer w2)) eqn:Htk2; unfold alike;
      cbn [with_timer timer set_timerId set_start requestAnimationFrame
           runProgressAnimation delay tick remaining start clock timerId
           timeouts app];
      (do 5 (split; [congruence|]));
      eapply handle_armed; reflexivity.
  - split; [|reflexivity]. unfold pause. rewrite <- Hs.
    destruct (JS.truthy (start (timer w1))).
    2:{ unfold alike; auto 10. }
    set (v1 := with_timer (set_start 0) (with_timer _ w1)).
    set (v2 := with_timer (set_start 0) (with_timer _ w2)).
    assert (Hv : same_handle_state v1 v2).
    { unfold same_handle_state, stale in *. exact Hh. }
    destruct (clear_idle v1 v2 Hv) as (A1 & A2 & A3 & A4).
    destruct (clear_fields v1) as (B1 & B2 & B3 & B4 & B5).
    destruct (clear_fields v2) as (C1 & C2 & C3 & C4 & C5).
    unfold alike. rewrite B1, B2, B3, B4, B5, C1, C2, C3, C4, C5.
    (do 5 (split; [subst v1 v2; cbn; rewrite ?Hr, ?Hc, ?Hs; auto|])).
    apply handle_idle; assumption.
  - split; [|reflexivity]. unfold reset.
    destruct (clear_idle w1 w2 Hh) as (A1 & A2 & A3 & A4).
    destruct (clear_fields w1) as (B1 & B2 & B3 & B4 & B5).
    destruct (clear_fields w2) as (C1 & C2 & C3 & C4 & C5).
    unfold alike.
    cbn [with_timer timer set_remaining set_start delay tick remaining start
         clock].
    rewrite B1, B2, B5, C1, C2, C5.
    (do 5 (split; [auto|])). apply handle_idle; assumption.
  - split; [|reflexivity]. unfold alike; cbn. rewrite Hc.
    (do 5 (split; [auto|])). exact Hh.
  - unfold fire; cbn [fst snd]. unfold alike.
    cbn [timer clock timeouts]. rewrite <- Hc.
    pose proof (handle_state_cases _ _ Hh) as
      [(H1 & H2 & H3 & H4)|[(i1 & i2 & H1 & H2 & H3 & H4)|
      (i1 & i2 & due & H1 & H2 & H3 & H4)]]; rewrite H3, H4;
      cbn [List.filter map].
    + split; [|reflexivity]. (do 5 (split; [auto|])).
      apply handle_idle; cbn; auto.
    + split; [|reflexivity]. (do 5 (split; [auto|])).
      apply (handle_stale _ _ i1 i2); cbn; auto.
    + unfold is_due; cbn [snd]. destruct (due <=? clock w1); cbn [negb map].
      * split; [|reflexivity]. (do 5 (split; [auto|])).
        apply (handle_stale _ _ i1 i2); cbn; auto.
      * split; [|reflexivity]. (do 5 (split; [auto|])).
        apply (handle_armed _ _ i1 i2 due); cbn; auto.
  - destruct (frame_keeps w1) as (T1 & C1 & O1 & F1).
    destruct (frame_keeps w2) as (T2 & C2 & O2 & F2).
    rewrite F1, F2. split; [|reflexivity].
    unfold alike, same_handle_state, stale in *.
    rewrite T1, T2, C1, C2, O1, O2. auto 10.
Qed.

Lemma alike_run os w1 w2 :
  alike w1 w2 ->
  alike (final os w1) (final os w2) /\
  fired_times (seen os w1) = fired_times (seen os w2).
Proof.
  revert w1 w2; induction os as [|o os IH]; intros w1 w2 H.
  - split; [exact H|reflexivity].
  - destruct (alike_step o w1 w2 H) as [H1 H2].
    destruct (IH _ _ H1) as [H3 H4].
    rewrite !final_cons, !seen_cons, !fired_times_app, H2, H4. auto.
Qed.

Lemma run_frame_cbs_congr cs ts w1 w2 :
  delay (timer w1) = delay (timer w2) -> tick (timer w1) = tick (timer w2) ->
  frames w1 = frames w2 ->
  snd (run_frame_cbs cs ts w1) = snd (run_frame_cbs cs ts w2) /\
  frames (fst (run_frame_cbs cs ts w1)) = frames (fst (run_frame_cbs cs ts w2)).
Proof.
  revert w1 w2; induction cs as [|c cs IH]; intros w1 w2 Hd Htk Hf;
    cbn [run_frame_cbs].
  - auto.
  - destruct (run_frame_cb c ts w1) as [v1 o1] eqn:E1.
    destruct (run_frame_cb c ts w2) as [v2 o2] eqn:E2.
    assert (H : o1 = o2 /\ delay (timer v1) = delay (timer v2) /\
                tick (timer v1) = tick (timer v2) /\ frames v1 = frames v2).
    { destruct c; cbn in E1, E2.
      - injection E1 as <- <-. injection E2 as <- <-. auto.
      - unfold animate in E1, E2. injection E1 as <- <-.
        injection E2 as <- <-. rewrite Hd, Htk.
        destruct (_ <? _); cbn; rewrite ?Hf; auto. }
    destruct H as (-> & Hd' & Htk' & Hf').
    specialize (IH v1 v2 Hd' Htk' Hf').
    destruct (run_frame_cbs cs ts v1), (run_frame_cbs cs ts v2).
    cbn [fst snd] in *. destruct IH as [-> ->]. auto.
Qed.

Lemma alike_step_frames o w1 w2 :
  alike w1 w2 -> frames w1 = frames w2 ->
  snd (step o w1) = snd (step o w2) /\
  frames (fst (step o w1)) = frames (fst (step o w2)).
Proof.
  intros (Hd & Htk & Hr & Hs & Hc & Hh) Hf.
  destruct o; cbn [step fst snd].
  - split; [reflexivity|].
    destruct Hh as [(H1 & H2 & H3 & H4)|[([[i1 H1] H3] & [[i2 H2] H4])|
      (i1 & i2 & due & H1 & H3 & H2 & H4)]];
      unfold resume; rewrite H1, H2; auto.
    break_world w1; break_world w2; cbn in *; subst.
    destruct tick1; reflexivity.
  - rewrite !pause_loops. auto.
  - rewrite !reset_loops. auto.
  - auto.
  - unfold fire; cbn [fst snd frames]. split; [|exact Hf]. rewrite <- Hc.
    destruct Hh as [(H1 & H2 & H3 & H4)|[([[i1 H1] H3] & [[i2 H2] H4])|
      (i1 & i2 & due & H1 & H3 & H2 & H4)]]; rewrite H3, H4; cbn; auto.
    unfold is_due; cbn. destruct (due <=? clock w1); reflexivity.
  - unfold frame. rewrite Hf, Hc. apply run_frame_cbs_congr; auto.
Qed.

Lemma alike_run_frames os w1 w2 :
  alike w1 w2 -> frames w1 = frames w2 ->
  seen os w1 = seen os w2 /\ frames (final os w1) = frames (final os w2).
Proof.
  revert w1 w2; induction os as [|o os IH]; intros w1 w2 H Hf.
  - auto.
  - destruct (alike_step o w1 w2 H) as [H1 _].
    destruct (alike_step_frames o w1 w2 H Hf) as [H2 H3].
    destruct (IH _ _ H1 H3) as [H4 H5].
    rewrite !final_cons, !seen_cons, H2, H4. auto.
Qed.

Lemma reset_timer w :
  timer (reset w) =
  construct (delay (timer w)) (tick (timer w)) /\
  clock (reset w) = clock w /\
  (one_pending w -> timeouts (reset w) = []).
Proof.
  break_world w. unfold one_pending.
  destruct timerId0 as [h|]; cbn; (do 2 (split; [reflexivity|])).
  - intros [->|(id & due & -> & [= ->])]; cbn; [reflexivity|].
    rewrite Pos.eqb_refl; reflexivity.
  - intros [->|(id & due & _ & [=])]; reflexivity.
Qed.

(** C8, as the code has it.  In every reachable state [reset()] leaves
    nothing pending and gives the timer the fields of a freshly constructed
    one; from there every further run fires the completion at the same
    clock values as the same run on a fresh timer and ends with the same
    fields and the same pending completion.  When no progress loop is alive
    at the [reset()], the two runs agree on everything they report. *)
Theorem reset_like_fresh now d tk pre os :
  let w := final pre (init now d tk) in
  let r := reset w in
  let fresh := init (clock w) d tk in
  (timeouts r = [] /\ timer r = construct d tk) /\
  fired_times (seen os r) = fired_times (seen os fresh) /\
  alike (final os r) (final os fresh) /\
  (frames w = [] ->
   seen os r = seen os fresh /\
   frames (final os r) = frames (final os fresh)).
Proof.
  intros w r fresh.
  assert (Hone : one_pending w) by apply one_pending_final, one_pending_init.
  destruct (final_config pre (init now d tk)) as [Hd Htk]. cbn in Hd, Htk.
  fold w in Hd, Htk.
  destruct (reset_timer w) as (Ht & Hc & Hto). specialize (Hto Hone).
  rewrite Hd, Htk in Ht. fold r in Ht, Hc, Hto.
  assert (Hal : alike r fresh).
  { unfold alike, same_handle_state. rewrite Ht, Hc, Hto. cbn. auto 10. }
  split; [auto|].
  destruct (alike_run os r fresh Hal) as [H1 H2].
  split; [exact H2|]. split; [exact H1|].
  intros Hf. apply alike_run_frames; [exact Hal|].
  unfold r. rewrite reset_loops. exact Hf.
Qed.

Lemma reset_like_fresh_witness :
  let w := final [Resume; Wait 2000; Fire] (init 1000 5000 false) in
  seen [Resume; Wait 5000; Fire] (reset w) =
  seen [Resume; Wait 5000; Fire] (init 3000 5000 false).
Proof.
  intros w.
  exact (proj1 (proj2 (proj2 (proj2
    (reset_like_fresh 1000 5000 false [Resume; Wait 2000; Fire]
       [Resume; Wait 5000; Fire]))) eq_refl)).
Defined.

(** C8, as stated, fails: a progress loop started before [reset()] keeps
    reporting after it, which a fresh timer does not do. *)
Lemma reset_keeps_progress_loop :
  let w := final [Resume; Frame] (init 1000 5000 true) in
  progress_values (seen [Wait 1000; Frame] (reset w)) <> [] /\
  seen [Wait 1000; Frame] (init (clock w) 5000 true) = [] /\
  seen [Wait 1000; Frame] (reset w) <>
  seen [Wait 1000; Frame] (init (clock w) 5000 true).
Proof. cbn zeta. repeat split; try reflexivity; vm_compute; discriminate. Qed.

(** ** The reported progress *)

Lemma den_of_pos d : 0 < d -> Zpos (Z.to_pos (Z.abs d)) = d.
Proof. intros Hd. rewrite Z2Pos.id; lia. Qed.







Lemma fired_map_no_progress (c : Z) (l : list (positive * Z)) :
  progress_values (map (fun _ => Fired c) l) = [].
Proof. induction l; cbn; auto. Qed.





























(** Why the clock is taken positive: a loop whose first frame has the
    timestamp 0 takes the next frame for its first one again. *)
Lemma loop_restarts_at_time_zero :
  let os := [Resume; Frame; Wait 2000; Frame] in
  frames (final os (init 0 1000 true)) = [Animate (Some 2000)] /\
  length (progress_values (seen os (init 0 1000 true))) = 3%nat /\
  Forall (JS.is_value 0) (progress_values (seen os (init 0 1000 true))).
Proof.
  cbn zeta. split; [vm_compute; reflexivity|].
  split; [vm_compute; reflexivity|].
  repeat constructor; vm_compute; reflexivity.
Qed.


(** * Properties of the attribute layer *)

Lemma parse_attributes_other attrs (e : Booster.element)
    (d : DataStore.t) (key : string) :
  ~ In key (map fst attrs) ->
  fst (Booster.parse_attributes attrs e d) !! key = d !! key.
Proof.
  revert d; induction attrs as [|[k a] attrs IH]; intros d Hk;
    cbn [Booster.parse_attributes]; [reflexivity|].
  cbn [map fst In] in Hk.
  assert (Hne : k <> key) by tauto.
  assert (Hk' : ~ In key (map fst attrs)) by tauto.
  destruct (negb (Booster.truthy_attr (Booster.getAttribute k e))).
  - rewrite IH by exact Hk'. unfold DataStore.set.
    apply lookup_insert_ne, Hne.
  - destruct (Booster.validate a k _) as [ok l1].
    destruct (negb ok).
    + specialize (IH d Hk').
      destruct (Booster.parse_attributes attrs e d); exact IH.
    + match goal with
      | |- context [Booster.parse_attributes attrs e ?d'] =>
          specialize (IH d' Hk');
          destruct (Booster.parse_attributes attrs e d')
      end.
      cbn [fst] in *. rewrite IH. unfold DataStore.set.
      apply lookup_insert_ne, Hne.
Qed.

(** What [parse] leaves in the data store under a configured attribute. *)
Lemma parse_attributes_lookup attrs (e : Booster.element)
    (d : DataStore.t) (key : string) (a : Attr.t) :
  List.NoDup (map fst attrs) -> In (key, a) attrs ->
  fst (Booster.parse_attributes attrs e d) !! key =
  match Booster.stored a key (Booster.getAttribute key e) with
  | Some x => Some x
  | None => d !! key
  end.
Proof.
  revert d; induction attrs as [|[k b] attrs IH]; intros d Hnd Hin;
    [contradiction|].
  cbn [map fst] in Hnd. apply List.NoDup_cons_iff in Hnd as [Hk Hnd].
  destruct Hin as [[= -> ->]|Hin].
  - (* the attribute handled now; the later ones have other names *)
    cbn [Booster.parse_attributes]. unfold Booster.stored.
    destruct (negb (Booster.truthy_attr (Booster.getAttribute key e))).
    + rewrite parse_attributes_other by exact Hk.
      unfold DataStore.set. apply lookup_insert_eq.
    + destruct (Booster.validate a key _) as [ok l1]. cbn [fst].
      destruct (negb ok).
      * pose proof (parse_attributes_other attrs e d key Hk) as H.
        destruct (Booster.parse_attributes attrs e d); exact H.
      * match goal with
        | |- context [Booster.parse_attributes attrs e ?d'] =>
            pose proof (parse_attributes_other attrs e d' key Hk) as H;
            destruct (Booster.parse_attributes attrs e d')
        end.
        cbn [fst] in *. rewrite H. unfold DataStore.set.
        apply lookup_insert_eq.
  - (* a later attribute *)
    assert (Hne : k <> key).
    { intros ->. apply Hk. apply (in_map fst) in Hin. exact Hin. }
    cbn [Booster.parse_attributes].
    destruct (negb (Booster.truthy_attr (Booster.getAttribute k e))).
    + rewrite IH by assumption.
      destruct (Booster.stored a key _); [reflexivity|].
      unfold DataStore.set. apply lookup_insert_ne, Hne.
    + destruct (Booster.validate b k _) as [ok l1].
      destruct (negb ok).
      * specialize (IH d Hnd Hin).
        destruct (Booster.parse_attributes attrs e d); exact IH.
      * match goal with
        | |- context [Booster.parse_attributes attrs e ?d'] =>
            specialize (IH d' Hnd Hin);
            destruct (Booster.parse_attributes attrs e d')
        end.
        cbn [fst] in *. rewrite IH.
        destruct (Booster.stored a key _); [reflexivity|].
        unfold DataStore.set. apply lookup_insert_ne, Hne.
Qed.

(** For every configured attribute: an absent (or empty) value stores the
    default, a rejected value stores nothing, so reading it back gives
    [undefined]. *)
Lemma rejected_value_reads_undefined attrs (e : Booster.element)
    (key v : string) (a : Attr.t) :
  List.NoDup (map fst attrs) -> In (key, a) attrs ->
  (Booster.getAttribute key e = None ->
   DataStore.get key (fst (Booster.parse attrs e)) = Attr.defaultValue a) /\
  (Booster.getAttribute key e = Some v -> v <> EmptyString ->
   fst (Booster.validate a key v) = false ->
   DataStore.get key (fst (Booster.parse attrs e)) = VUndefined).
Proof.
  intros Hnd Hin. unfold DataStore.get, Booster.parse.
  rewrite (parse_attributes_lookup attrs e DataStore.empty key a Hnd Hin).
  split.
  - intros ->. reflexivity.
  - intros -> Hv Hrej. unfold Booster.stored. cbn [Booster.truthy_attr].
    apply String.eqb_neq in Hv. rewrite Hv. cbn [negb default].
    unfold id. rewrite Hrej. cbn [negb]. reflexivity.
Qed.

(** C9. With the configuration of the auto-tab booster, a value of
    [fb-tabs-speed] that [isNumber] rejects is logged and skipped: nothing
    is stored under the key, and the delay [apply] reads back is
    [undefined], not the default 5000 that an absent attribute gives. *)
Theorem invalid_speed_is_not_defaulted (Number : string -> JS.num)
    (v : string) :
  v <> EmptyString -> AutoTab.isNaN (Number v) = true ->
  let r := Booster.parse (AutoTab.attributes Number)
             {[ "fb-tabs-speed"%string := v ]} in
  AutoTab.speed (fst r) = VUndefined /\
  snd r = [Booster.Invalid v "fb-tabs-speed" None] /\
  AutoTab.speed (fst (Booster.parse (AutoTab.attributes Number) ∅)) =
    VNumber (JS.of_Z 5000).
Proof.
  intros Hv Hnan r.
  assert (Hnd : List.NoDup (map fst (AutoTab.attributes Number))).
  { cbn. repeat constructor; cbn; intuition discriminate. }
  assert (Hin : In ("fb-tabs-speed"%string,
                    Attr.mk (VNumber (JS.of_Z 5000))
                      (Some (Attr.ByFunction (AutoTab.isNumber Number)))
                      (Some (fun v => VNumber (Number v))))
                   (AutoTab.attributes Number)).
  { cbn. auto. }
  split; [|split].
  - unfold AutoTab.speed, r.
    eapply (proj2 (rejected_value_reads_undefined _ _ _ v _ Hnd Hin)).
    + unfold Booster.getAttribute. apply lookup_singleton_eq.
    + exact Hv.
    + unfold Booster.validate, AutoTab.isNumber. cbn. rewrite Hnan.
      reflexivity.
  - assert (E1 : Booster.getAttribute "fb-tabs-pauseable"
                   ({[ "fb-tabs-speed"%string := v ]} : Booster.element) = None)
      by (apply lookup_singleton_ne; discriminate).
    assert (E2 : Booster.getAttribute "fb-tabs-progress"
                   ({[ "fb-tabs-speed"%string := v ]} : Booster.element) = None)
      by (apply lookup_singleton_ne; discriminate).
    assert (E3 : Booster.getAttribute "fb-tabs-speed"
                   ({[ "fb-tabs-speed"%string := v ]} : Booster.element)
                 = Some v)
      by apply lookup_singleton_eq.
    unfold r, Booster.parse, AutoTab.attributes.
    cbn [Booster.parse_attributes]. rewrite E1, E2, E3.
    cbn [Booster.truthy_attr negb].
    apply String.eqb_neq in Hv. rewrite Hv. cbn [negb default].
    unfold id, Booster.validate, AutoTab.isNumber. cbn. rewrite Hnan.
    reflexivity.
  - unfold AutoTab.speed.
    eapply (proj1 (rejected_value_reads_undefined _ _ _ v _ Hnd Hin)).
    unfold Booster.getAttribute. apply lookup_empty.
Qed.

Lemma invalid_speed_is_not_defaulted_witness :
  let r := Booster.parse (AutoTab.attributes AutoTab.number_of_digits)
             {[ "fb-tabs-speed"%string := "abc"%string ]} in
  AutoTab.speed (fst r) = VUndefined /\
  snd r = [Booster.Invalid "abc" "fb-tabs-speed" None].
Proof.
  intros r.
  destruct (invalid_speed_is_not_defaulted AutoTab.number_of_digits "abc"
              ltac:(discriminate) eq_refl) as (H1 & H2 & _).
  split; [exact H1|exact H2].
Defined.

Example valid_speed_is_stored :
  AutoTab.speed
    (fst (Booster.parse (AutoTab.attributes AutoTab.number_of_digits)
            {[ "fb-tabs-speed"%string := "3000"%string ]})) =
  VNumber (JS.of_Z 3000).
Proof. vm_compute. reflexivity. Qed.

(** * Further properties of the timer *)

Lemma reachable_one_pending now d tk os :
  one_pending (final os (init now d tk)).
Proof. apply one_pending_final, one_pending_init. Qed.

Lemma reachable_config now d tk os :
  delay (timer (final os (init now d tk))) = d /\
  tick (timer (final os (init now d tk))) = tk.
Proof. exact (final_config os (init now d tk)). Qed.

(** X1. In every state a timer reaches, [reset()] followed by [resume()],
    which is what activating a tab does, leaves exactly one completion
    pending, due a full [delay] from now (at once when the delay is
    negative), with [remaining] back at [delay]; [start] is the clock when
    there is a progress callback and 0 otherwise. *)
Theorem reset_resume_counts_down_in_full now d tk os :
  let w := final os (init now d tk) in
  let w' := resume (reset w) in
  timeouts w' = [(nextId w, clock w + Z.max 0 d)] /\
  timerId (timer w') = Some (nextId w) /\
  remaining (timer w') = d /\
  start (timer w') = (if tk then clock w else 0).
Proof.
  intros w w'.
  destruct (reachable_config now d tk os) as [Hd Htk]. fold w in Hd, Htk.
  destruct (reset_timer w) as (Ht & Hc & Hto).
  specialize (Hto (reachable_one_pending now d tk os)).
  rewrite Hd, Htk in Ht.
  assert (Hn : nextId (reset w) = nextId w).
  { break_world w. destruct timerId0; reflexivity. }
  assert (Hid : timerId (timer (reset w)) = None) by (rewrite Ht; reflexivity).
  destruct (resume_idle (reset w) Hid) as (A & B & C & D).
  unfold w'. rewrite A, B, C, D, Hto, Hn, Hc, Ht. cbn.
  destruct tk; auto.
Qed.

(** X2. [pause()], [reset()] and [clear()] are idempotent in every state,
    a [pause()] after [reset()] does nothing, and [reset()] wipes out a
    preceding [pause()]. *)
Theorem pause_reset_absorb w :
  pause (pause w) = pause w /\
  reset (reset w) = reset w /\
  clear (clear w) = clear w /\
  pause (reset w) = reset w /\
  reset (pause w) = reset w.
Proof.
  break_world w. unfold pause; cbn.
  destruct (JS.truthy start0) eqn:Es; destruct timerId0 as [id|]; cbn;
    rewrite ?Es; cbn; repeat split; reflexivity.
Qed.

(** With a progress callback, whatever is pending is due [remaining] (or
    at once, if that is negative) after [start], and [start] is not in the
    future. *)
Lemma due_step o w :
  tick (timer w) = true -> one_pending w ->
  (start (timer w) = 0 \/ start (timer w) <= clock w) ->
  (forall id due, timeouts w = [(id, due)] ->
     due = start (timer w) + Z.max 0 (remaining (timer w))) ->
  forall id due, timeouts (fst (step o w)) = [(id, due)] ->
    due = start (timer (fst (step o w))) +
          Z.max 0 (remaining (timer (fst (step o w)))).
Proof.
  intros Htk Hone Hs Hw id due. destruct o; cbn [step fst].
  - unfold resume. destruct (timerId (timer w)) eqn:Hid; [exact (Hw id due)|].
    destruct Hone as [Hto|(i & d0 & _ & Hi)]; [|congruence].
    break_world w; cbn in *. subst. cbn. intros [= <- <-]. reflexivity.
  - destruct (JS.truthy (start (timer w))) eqn:E.
    + destruct (pause_running w E) as (_ & _ & _ & _ & Hto).
      rewrite (Hto Hone). discriminate.
    + unfold pause. rewrite E. exact (Hw id due).
  - rewrite (proj2 (proj2 (reset_timer w)) Hone). discriminate.
  - cbn. exact (Hw id due).
  - unfold fire; cbn [fst timeouts timer].
    destruct Hone as [Hto|(i & d0 & Hto & _)]; rewrite Hto; cbn.
    + discriminate.
    + destruct (is_due (clock w) (i, d0)); cbn; [discriminate|].
      intros [= <- <-]. apply (Hw i). exact Hto.
  - destruct (frame_keeps w) as (T & _ & O & _). rewrite T, O. exact (Hw id due).
Qed.

Lemma progress_timer_invariant now d os :
  let w := final os (init now d true) in
  tick (timer w) = true /\ one_pending w /\
  (start (timer w) = 0 \/ start (timer w) <= clock w) /\
  (forall id due, timeouts w = [(id, due)] ->
     due = start (timer w) + Z.max 0 (remaining (timer w))).
Proof.
  intros w. unfold w. apply (final_invariant (fun v =>
    tick (timer v) = true /\ one_pending v /\
    (start (timer v) = 0 \/ start (timer v) <= clock v) /\
    (forall id due, timeouts v = [(id, due)] ->
       due = start (timer v) + Z.max 0 (remaining (timer v))))).
  - intros o v (Htk & Hone & Hs & Hdue).
    split; [|split; [|split]].
    + destruct (step_config o v) as [_ E]. congruence.
    + apply one_pending_step, Hone.
    + destruct o; cbn [step fst].
      * unfold resume. destruct (timerId (timer v)); [exact Hs|].
        break_world v; cbn in *. subst. cbn. right; lia.
      * unfold pause. destruct (JS.truthy (start (timer v))); [|exact Hs].
        break_world v. destruct timerId0; cbn; auto.
      * break_world v. destruct timerId0; cbn; auto.
      * cbn. destruct Hs; [auto|right; lia].
      * exact Hs.
      * destruct (frame_keeps v) as (T & C & _ & _). rewrite T, C. exact Hs.
    + apply due_step; assumption.
  - cbn. split; [reflexivity|]. split; [apply one_pending_init|].
    split; [auto|]. intros id due [=].
Qed.

(** X3. For a timer with a progress callback, in every state it reaches a
    pending completion is due exactly [max(0, remaining)] after [start]. *)
Theorem pending_is_due_remaining_after_start now d os :
  let w := final os (init now d true) in
  forall id due, timeouts w = [(id, due)] ->
    due = start (timer w) + Z.max 0 (remaining (timer w)).
Proof.
  intros w. exact (proj2 (proj2 (proj2 (progress_timer_invariant now d os)))).
Qed.

Lemma pending_is_due_remaining_after_start_witness :
  let w := final [Resume; Wait 2000; Pause; Wait 500; Resume; Wait 100]
             (init 1000 5000 true) in
  6500 = start (timer w) + Z.max 0 (remaining (timer w)).
Proof.
  intros w.
  exact (pending_is_due_remaining_after_start 1000 5000
           [Resume; Wait 2000; Pause; Wait 500; Resume; Wait 100]
           2%positive 6500 eq_refl).
Defined.

(** X4. For a timer with a progress callback that is running with its
    completion not yet overdue, a [pause()], a wait of any length and a
    [resume()] postpone the completion by exactly the length of the
    wait. *)
Theorem pause_postpones_by_its_length now d os (g : N) :
  let w := final os (init now d true) in
  JS.truthy (start (timer w)) = true ->
  forall id due, timeouts w = [(id, due)] -> clock w <= due ->
  timeouts (final [Pause; Wait g; Resume] w) = [(nextId w, due + Z.of_N g)].
Proof.
  intros w Hs id due Hto Hle.
  destruct (progress_timer_invariant now d os) as (Htk & Hone & Hst & Hdue).
  fold w in Htk, Hone, Hst, Hdue.
  specialize (Hdue id due Hto).
  apply truthy_true in Hs.
  assert (Hsc : start (timer w) <= clock w) by (destruct Hst; [contradiction|auto]).
  assert (Hid : timerId (timer w) = Some id).
  { destruct Hone as [E|(i & d0 & E & Hi)]; [congruence|].
    rewrite Hto in E. injection E as -> _. exact Hi. }
  unfold final; cbn [run step fst]. unfold pause.
  apply truthy_true in Hs. rewrite Hs.
  break_world w. cbn in *. subst. cbn. rewrite Pos.eqb_refl. cbn.
  f_equal. f_equal. lia.
Qed.

Lemma pause_postpones_by_its_length_witness :
  timeouts (final [Pause; Wait 700; Resume]
              (final [Resume; Wait 2000] (init 1000 5000 true))) =
  [(2%positive, 6700)].
Proof.
  exact (pause_postpones_by_its_length 1000 5000 [Resume; Wait 2000] 700
           eq_refl 1%positive 6000 eq_refl ltac:(vm_compute; discriminate)).
Defined.

Lemma filter_split_length {A} (f : A -> bool) (l : list A) :
  (length (List.filter f l) + length (List.filter (fun x => negb (f x)) l) =
   length l)%nat.
Proof.
  induction l as [|x l IH]; cbn; [reflexivity|].
  destruct (f x); cbn; lia.
Qed.

Lemma fired_times_fire w :
  fired_times (snd (fire w)) =
  map (fun _ => clock w) (List.filter (is_due (clock w)) (timeouts w)).
Proof.
  unfold fire; cbn [snd]. induction (List.filter _ _) as [|x l IH]; cbn;
    [reflexivity|]. rewrite IH; reflexivity.
Qed.

Lemma completions_bounded os w :
  (length (fired_times (seen os w)) <=
   length (timeouts w) + More.resumes os)%nat.
Proof.
  revert w; induction os as [|o os IH]; intros w; [cbn; lia|].
  rewrite seen_cons, fired_times_app, length_app.
  specialize (IH (fst (step o w))).
  assert (H : (length (fired_times (snd (step o w))) +
               length (timeouts (fst (step o w))) +
               More.resumes os <=
               length (timeouts w) + More.resumes (o :: os))%nat).
  { destruct o; cbn [step fst snd fired_times length].
    - change (More.resumes (Resume :: os)) with (S (More.resumes os)).
      unfold resume. destruct (timerId (timer w)); [lia|].
      break_world w. cbn. destruct tick0; cbn; rewrite length_app; cbn; lia.
    - change (More.resumes (Pause :: os)) with (More.resumes os).
      unfold pause. destruct (JS.truthy (start (timer w))); [|lia].
      break_world w. destruct timerId0; cbn; [|lia].
      apply Nat.add_le_mono_r, List.filter_length_le.
    - change (More.resumes (Reset :: os)) with (More.resumes os).
      break_world w. destruct timerId0; cbn; [|lia].
      apply Nat.add_le_mono_r, List.filter_length_le.
    - change (More.resumes (Wait dt :: os)) with (More.resumes os). cbn. lia.
    - change (More.resumes (Fire :: os)) with (More.resumes os).
      rewrite fired_times_fire, length_map. unfold fire; cbn [fst timeouts].
      pose proof (filter_split_length (is_due (clock w)) (timeouts w)). lia.
    - change (More.resumes (Frame :: os)) with (More.resumes os).
      destruct (frame_keeps w) as (_ & _ & O & F). rewrite O, F. cbn. lia. }
  lia.
Qed.

(** X5. In every run the completion callback is called at most as often as
    [resume()] was called. *)
Theorem completions_at_most_resumes now d tk os :
  (length (fired_times (seen os (init now d tk))) <= More.resumes os)%nat.
Proof.
  pose proof (completions_bounded os (init now d tk)) as H. cbn in H. exact H.
Qed.

(** X6. A timer constructed without a progress callback never calls one
    and never queues an animation frame, whatever is done with it. *)
Theorem no_progress_without_callback now d os :
  progress_values (seen os (init now d false)) = [] /\
  frames (final os (init now d false)) = [].
Proof.
  assert (H : forall w, tick (timer w) = false -> frames w = [] ->
            progress_values (seen os w) = [] /\ frames (final os w) = []).
  { induction os as [|o os IH]; intros w Htk Hf; [auto|].
    rewrite seen_cons, final_cons, progress_values_app.
    assert (Hs : progress_values (snd (step o w)) = [] /\
                 frames (fst (step o w)) = []).
    { destruct o; cbn [step fst snd progress_values].
      - split; [reflexivity|]. unfold resume.
        destruct (timerId (timer w)); [exact Hf|].
        break_world w; cbn in *. subst. reflexivity.
      - rewrite pause_loops. auto.
      - rewrite reset_loops. auto.
      - auto.
      - unfold fire; cbn [fst snd frames].
        rewrite fired_map_no_progress. auto.
      - unfold frame. rewrite Hf. cbn. auto. }
    destruct Hs as [Hp Hf']. rewrite Hp. cbn [app].
    apply IH; [|exact Hf'].
    destruct (step_config o w) as [_ E]. congruence. }
  apply H; reflexivity.
Qed.

(** * Further properties of the attribute layer *)




(** X8. [validate] logs exactly when it answers false, and then one entry
    that carries the value and the attribute name; an attribute without
    validator accepts everything, and an array validator accepts exactly
    its members. *)
Theorem validate_logs_what_it_rejects (a : Attr.t) (name v : string) :
  (fst (Booster.validate a name v) = true ->
   snd (Booster.validate a name v) = []) /\
  (fst (Booster.validate a name v) = false ->
   exists possible,
     snd (Booster.validate a name v) = [Booster.Invalid v name possible]) /\
  (Attr.validate a = None -> Booster.validate a name v = (true, [])) /\
  (forall allowed, Attr.validate a = Some (Attr.ByArray allowed) ->
     (fst (Booster.validate a name v) = true <-> In v allowed)).
Proof.
  unfold Booster.validate.
  destruct (Attr.validate a) as [[f|allowed]|].
  - destruct (f v); cbn; repeat split; try discriminate; eauto.
  - assert (Hin : Booster.includes allowed v = true <-> In v allowed).
    { unfold Booster.includes. rewrite existsb_exists. split.
      - intros (x & Hx & E). apply String.eqb_eq in E. subst. exact Hx.
      - intros Hx. exists v. split; [exact Hx|apply String.eqb_refl]. }
    destruct (Booster.includes allowed v) eqn:E; cbn;
      (split; [try discriminate; auto|]);
      (split; [try discriminate; eauto|]);
      (split; [discriminate|]);
      intros l [= <-]; rewrite <- Hin; split; auto; discriminate.
  - cbn. repeat split; try discriminate; auto.
Qed.

Lemma validate_logs_what_it_rejects_witness :
  let a := Attr.mk VNull (Some (Attr.ByArray ["left"; "right"]%string)) None in
  snd (Booster.validate a "side" "right") = [] /\
  (exists possible,
     snd (Booster.validate a "side" "up") =
     [Booster.Invalid "up" "side" possible]) /\
  Booster.validate (Attr.mk VNull None None) "side" "up" = (true, []) /\
  fst (Booster.validate a "side" "left") = true.
Proof.
  intros a.
  destruct (validate_logs_what_it_rejects a "side" "right") as (H1 & _).
  destruct (validate_logs_what_it_rejects a "side" "up") as (_ & H2 & _).
  destruct (validate_logs_what_it_rejects (Attr.mk VNull None None)
              "side" "up") as (_ & _ & H3 & _).
  destruct (validate_logs_what_it_rejects a "side" "left") as (_ & _ & _ & H4).
  split; [exact (H1 eq_refl)|]. split; [exact (H2 eq_refl)|].
  split; [exact (H3 eq_refl)|].
  apply (H4 ["left"; "right"]%string eq_refl). left; reflexivity.
Defined.



(** X10. With distinct attribute names, what [parse] stores for an
    attribute depends on that attribute and its value alone: an absent or
    empty value gives the default, and a value the validator accepts gives
    what the attribute's parser makes of it (the default when that is
    null or undefined), or the value itself when there is no parser. *)
Theorem parse_stores_default_or_parsed attrs (e : Booster.element)
    (key : string) (a : Attr.t) :
  List.NoDup (map fst attrs) -> In (key, a) attrs ->
  let got := DataStore.get key (fst (Booster.parse attrs e)) in
  (Booster.getAttribute key e = None \/
   Booster.getAttribute key e = Some EmptyString ->
   got = Attr.defaultValue a) /\
  (forall v, Booster.getAttribute key e = Some v -> v <> EmptyString ->
     fst (Booster.validate a key v) = true ->
     got = match Attr.parse a with
           | Some p => coalesce (p v) (Attr.defaultValue a)
           | None => VString v
           end).
Proof.
  intros Hnd Hin got. unfold got, DataStore.get, Booster.parse.
  rewrite (parse_attributes_lookup attrs e DataStore.empty key a Hnd Hin).
  unfold Booster.stored. split.
  - intros [->| ->]; reflexivity.
  - intros v -> Hv Hok. cbn [Booster.truthy_attr].
    apply String.eqb_neq in Hv. rewrite Hv. cbn [negb default]. unfold id.
    rewrite Hok. reflexivity.
Qed.

Lemma parse_stores_default_or_parsed_witness :
  let attrs := AutoTab.attributes AutoTab.number_of_digits in
  DataStore.get "fb-tabs-speed"
    (fst (Booster.parse attrs {[ "fb-tabs-speed"%string := ""%string ]})) =
    VNumber (JS.of_Z 5000) /\
  DataStore.get "fb-tabs-speed"
    (fst (Booster.parse attrs {[ "fb-tabs-speed"%string := "250"%string ]})) =
    VNumber (JS.of_Z 250).
Proof.
  intros attrs.
  assert (Hnd : List.NoDup (map fst attrs)).
  { cbn. repeat constructor; cbn; intuition discriminate. }
  assert (Hin : In ("fb-tabs-speed"%string,
                    Attr.mk (VNumber (JS.of_Z 5000))
                      (Some (Attr.ByFunction
                               (AutoTab.isNumber AutoTab.number_of_digits)))
                      (Some (fun v => VNumber (AutoTab.number_of_digits v))))
                   attrs).
  { cbn. auto. }
  split.
  - apply (proj1 (parse_stores_default_or_parsed attrs
                    {[ "fb-tabs-speed"%string := ""%string ]} _ _ Hnd Hin)).
    right. reflexivity.
  - apply (proj2 (parse_stores_default_or_parsed attrs
                    {[ "fb-tabs-speed"%string := "250"%string ]} _ _ Hnd Hin)
             "250"%string); [reflexivity|discriminate|reflexivity].
Defined.



Lemma flag_lookup (Number : string -> JS.num) (e : Booster.element)
    (key : string) :
  In (key, Attr.mk (VBool false) (Some (Attr.ByFunction AutoTab.isBoolean))
             (Some AutoTab.stringToBoolean))
     (AutoTab.attributes Number) ->
  (Reading.truthy_value
     (DataStore.get key (fst (Booster.parse (AutoTab.attributes Number) e)))
   = true <-> Booster.getAttribute key e = Some "true"%string).
Proof.
  intros Hin.
  assert (Hnd : List.NoDup (map fst (AutoTab.attributes Number))).
  { cbn. repeat constructor; cbn; intuition discriminate. }
  unfold DataStore.get, Booster.parse.
  rewrite (parse_attributes_lookup _ e DataStore.empty key _ Hnd Hin).
  unfold Booster.stored.
  destruct (Booster.getAttribute key e) as [v|]; cbn [Booster.truthy_attr];
    [|cbn; split; discriminate].
  destruct (String.eqb v EmptyString) eqn:Ev; cbn [negb default].
  - apply String.eqb_eq in Ev. subst v. cbn. split; discriminate.
  - unfold id, Booster.validate, AutoTab.isBoolean; cbn [Attr.validate fst].
    destruct (String.eqb v "true") eqn:Et.
    + apply String.eqb_eq in Et. subst v. cbn. split; auto.
    + apply String.eqb_neq in Et.
      destruct (String.eqb v "false") eqn:Ef; cbn.
      * apply String.eqb_eq in Ef. subst v. cbn. split; [discriminate|].
        intros [= E]; discriminate.
      * split; [discriminate|]. intros [= ->]. contradiction.
Qed.

(** X12. With the configuration of the auto-tab booster, whatever
    [Number] does: hover pausing is switched on exactly when the element
    carries [fb-tabs-pauseable="true"], and the progress callback exactly
    when it carries [fb-tabs-progress="true"]; any other value, valid or
    not, leaves them off. *)
Theorem flags_are_on_for_true_only (Number : string -> JS.num)
    (e : Booster.element) :
  let d := fst (Booster.parse (AutoTab.attributes Number) e) in
  (Reading.pauseable d = true <->
   Booster.getAttribute "fb-tabs-pauseable" e = Some "true"%string) /\
  (Reading.showProgress d = true <->
   Booster.getAttribute "fb-tabs-progress" e = Some "true"%string).
Proof.
  intros d. unfold d, Reading.pauseable, Reading.showProgress.
  split; apply flag_lookup; cbn; auto.
Qed.

(** * Properties of the rotation *)

(** What [reset()] followed by [resume()] makes of a world whose table
    holds at most the timer's own entry. *)
Lemma reset_resume_world w :
  one_pending w ->
  let w' := resume (reset w) in
  timeouts w' = [(nextId w, clock w + Z.max 0 (delay (timer w)))] /\
  timerId (timer w') = Some (nextId w) /\
  remaining (timer w') = delay (timer w) /\
  delay (timer w') = delay (timer w) /\
  tick (timer w') = tick (timer w) /\
  clock w' = clock w /\
  one_pending w'.
Proof.
  intros Hone w'.
  destruct (reset_timer w) as (Ht & Hc & Hto). specialize (Hto Hone).
  assert (Hn : nextId (reset w) = nextId w).
  { break_world w. destruct timerId0; reflexivity. }
  assert (Hid : timerId (timer (reset w)) = None) by (rewrite Ht; reflexivity).
  destruct (resume_idle (reset w) Hid) as (A & B & C & D).
  destruct (step_config Resume (reset w)) as [E1 E2]. cbn [step fst] in E1, E2.
  assert (Hck : clock (resume (reset w)) = clock (reset w)).
  { unfold resume. rewrite Hid.
    destruct (reset w) as [[? tk ? ? ?] ? ? ? ?]. destruct tk; reflexivity. }
  unfold w'.
  split; [rewrite A, Hto, Hn, Hc, Ht; reflexivity|].
  split; [rewrite B, Hn; reflexivity|].
  split; [rewrite C, Ht; reflexivity|].
  split; [rewrite E1, Ht; reflexivity|].
  split; [rewrite E2, Ht; reflexivity|].
  split; [rewrite Hck, Hc; reflexivity|].
  apply (one_pending_step Resume), (one_pending_step Reset), Hone.
Qed.

Module RotationFacts.

Import Rotation.

Lemma update_tab_frame i f st :
  showProgress (update_tab i f st) = showProgress st /\
  pauseable (update_tab i f st) = pauseable st /\
  currentTab (update_tab i f st) = currentTab st /\
  world (update_tab i f st) = world st /\
  style_timeouts (update_tab i f st) = style_timeouts st /\
  paints (update_tab i f st) = paints st /\
  length (tabs (update_tab i f st)) = length (tabs st).
Proof.
  unfold update_tab. destruct (tabs st !! i); cbn; auto 10.
  rewrite length_insert. auto 10.
Qed.

Lemma update_tab_hrefs i f st :
  (forall t, href (f t) = href t) ->
  map href (tabs (update_tab i f st)) = map href (tabs st).
Proof.
  intros Hf. unfold update_tab. destruct (tabs st !! i) as [t|] eqn:E;
    [|reflexivity].
  cbn. rewrite list_fmap_insert, Hf.
  apply list_insert_id. rewrite list_lookup_fmap, E. reflexivity.
Qed.

(** The part of [activateTab] before the timer is touched: the current
    tab changes, a bar may fade, a style timeout may be queued. *)
Lemma activateTab_spec i st :
  let st' := activateTab i st in
  currentTab st' = Some i /\
  showProgress st' = showProgress st /\
  pauseable st' = pauseable st /\
  length (tabs st') = length (tabs st) /\
  map href (tabs st') = map href (tabs st) /\
  paints st' = paints st /\
  exists w0,
    Timer.timer w0 = Timer.timer (world st) /\
    Timer.clock w0 = Timer.clock (world st) /\
    Timer.timeouts w0 = Timer.timeouts (world st) /\
    Timer.frames w0 = Timer.frames (world st) /\
    world st' = Timer.resume (Timer.reset w0).
Proof.
  unfold activateTab. cbn zeta.
  destruct (negb (same_tab (currentTab st) i)) eqn:Hsame.
  2:{ apply negb_false_iff in Hsame. unfold same_tab in Hsame.
      destruct (currentTab st) as [j|] eqn:Hc; [|discriminate].
      apply Nat.eqb_eq in Hsame. subst j. cbn.
      repeat (split; [auto|]). exists (world st). auto. }
  destruct (currentTab st) as [c|] eqn:Hc.
  2:{ cbn. repeat (split; [auto|]). exists (world st). auto. }
  destruct (showProgress st) eqn:Hp.
  2:{ cbn. repeat (split; [auto|]). exists (world st). auto. }
  unfold fade_out. destruct (tabs st !! c) as [t|] eqn:Ht.
  2:{ cbn. repeat (split; [auto|]). exists (world st). auto. }
  destruct (progressBar t) as [b|] eqn:Hb.
  2:{ cbn. repeat (split; [auto|]). exists (world st). auto. }
  set (st1 := update_tab c _ st).
  destruct (update_tab_frame c (set_bar (mkBar (bar_width b) Opacity0)) st)
    as (A1 & A2 & A3 & A4 & A5 & A6 & A7).
  assert (A8 : map href (tabs st1) = map href (tabs st)).
  { apply update_tab_hrefs. intros t'. reflexivity. }
  fold st1 in A1, A2, A3, A4, A5, A6, A7.
  unfold style_setTimeout.
  cbn [set_world set_currentTab currentTab showProgress pauseable tabs paints
       world].
  rewrite A1, A2, A4, A6, A7, A8.
  repeat (split; [auto|]).
  exists (Timer.mkWorld (Timer.timer (world st)) (Timer.clock (world st))
            (Pos.succ (Timer.nextId (world st)))
            (Timer.timeouts (world st)) (Timer.frames (world st))).
  repeat split; reflexivity.
Qed.

Lemma one_pending_same w0 w :
  Timer.timer w0 = Timer.timer w -> Timer.timeouts w0 = Timer.timeouts w ->
  one_pending w -> one_pending w0.
Proof. unfold one_pending. intros -> ->. auto. Qed.

Lemma activateTab_arms i st :
  one_pending (world st) ->
  let st' := activateTab i st in
  armed_for (Timer.clock (world st) +
             Z.max 0 (Timer.delay (Timer.timer (world st)))) st' /\
  Timer.remaining (Timer.timer (world st')) =
    Timer.delay (Timer.timer (world st)) /\
  Timer.delay (Timer.timer (world st')) =
    Timer.delay (Timer.timer (world st)) /\
  Timer.tick (Timer.timer (world st')) =
    Timer.tick (Timer.timer (world st)) /\
  Timer.clock (world st') = Timer.clock (world st) /\
  one_pending (world st').
Proof.
  intros Hone st'.
  destruct (activateTab_spec i st)
    as (_ & _ & _ & _ & _ & _ & w0 & T & C & O & _ & W).
  fold st' in W.
  destruct (reset_resume_world w0 (one_pending_same w0 _ T O Hone))
    as (B1 & B2 & B3 & B4 & B5 & B6 & B7).
  unfold armed_for. rewrite W, B1, B2, B3, B4, B5, B6, T, C.
  repeat (split; [eauto|]). exact B7.
Qed.

Lemma update_tab_set_href i h st :
  map href (tabs (update_tab i (set_href h) st)) =
  <[i := h]> (map href (tabs st)).
Proof.
  unfold update_tab. destruct (tabs st !! i) as [t|] eqn:E.
  - cbn. rewrite list_fmap_insert. reflexivity.
  - symmetry. apply list_insert_ge. rewrite length_map.
    apply lookup_ge_None. exact E.
Qed.

Lemma next_index_in_ring (len c : nat) :
  (c < len)%nat ->
  Z.to_nat (if Z.of_nat len <=? Z.of_nat c + 1 then 0 else Z.of_nat c + 1) =
    next_in_ring len c /\
  (next_in_ring len c < len)%nat.
Proof.
  intros Hc. unfold next_in_ring.
  destruct (Z.of_nat len <=? Z.of_nat c + 1) eqn:E.
  - apply Z.leb_le in E. assert (S c = len) as <- by lia.
    rewrite Nat.Div0.mod_same. split; [reflexivity|lia].
  - apply Z.leb_gt in E. rewrite Nat.mod_small by lia. split; lia.
Qed.

Lemma set_currentTab_frame c st :
  currentTab (set_currentTab c st) = c /\
  world (set_currentTab c st) = world st /\
  tabs (set_currentTab c st) = tabs st /\
  showProgress (set_currentTab c st) = showProgress st /\
  pauseable (set_currentTab c st) = pauseable st /\
  style_timeouts (set_currentTab c st) = style_timeouts st /\
  paints (set_currentTab c st) = paints st.
Proof. destruct st; cbn; auto 10. Qed.

Lemma rotate_spec st c :
  well_formed st -> currentTab st = Some c ->
  let st' := rotate st in
  currentTab st' = Some (next_in_ring (length (tabs st)) c) /\
  map href (tabs st') = map href (tabs st) /\
  length (tabs st') = length (tabs st) /\
  showProgress st' = showProgress st /\
  pauseable st' = pauseable st /\
  armed_for (Timer.clock (world st) +
             Z.max 0 (Timer.delay (Timer.timer (world st)))) st' /\
  Timer.remaining (Timer.timer (world st')) =
    Timer.delay (Timer.timer (world st)) /\
  Timer.delay (Timer.timer (world st')) =
    Timer.delay (Timer.timer (world st)) /\
  Timer.tick (Timer.timer (world st')) = Timer.tick (Timer.timer (world st)) /\
  Timer.clock (world st') = Timer.clock (world st) /\
  one_pending (world st').
Proof.
  intros (Hne & Hcv & Htk & Hone) Hc st'.
  unfold current_valid in Hcv. rewrite Hc in Hcv.
  unfold st', rotate. rewrite Hc. unfold indexOf.
  apply Nat.ltb_lt in Hcv as Hb. rewrite Hb.
  destruct (next_index_in_ring (length (tabs st)) c Hcv) as [-> Hn].
  set (n := next_in_ring (length (tabs st)) c) in *.
  destruct (lookup_lt_is_Some_2 (tabs st) n Hn) as [nextTab Hnext].
  rewrite Hnext.
  pose proof (update_tab_set_href n EmptyString st) as Hh1.
  destruct (update_tab_frame n (set_href EmptyString) st)
    as (A1 & A2 & A3 & A4 & A5 & A6 & A7).
  remember (update_tab n (set_href EmptyString) st) as st1 eqn:E1 in *.
  clear E1.
  assert (H1 : is_Some (tabs st1 !! n)).
  { apply lookup_lt_is_Some_2. rewrite A7. exact Hn. }
  unfold on_click. destruct H1 as [t1 Ht1]. rewrite Ht1.
  destruct (activateTab_spec n st1)
    as (B1 & B2 & B3 & B4 & B5 & B6 & _).
  assert (Hone1 : one_pending (world st1)) by (rewrite A4; exact Hone).
  destruct (activateTab_arms n st1 Hone1) as (C1 & C2 & C3 & C4 & C5 & C6).
  rewrite A4 in C1, C2, C3, C4, C5.
  remember (activateTab n st1) as st2 eqn:E2 in *. clear E2.
  destruct (set_currentTab_frame (Some n) st2)
    as (S1 & S2 & S3 & S4 & S5 & S6 & S7).
  remember (set_currentTab (Some n) st2) as st3 eqn:E3 in *. clear E3.
  assert (Hh : map href (tabs st3) = <[n := EmptyString]> (map href (tabs st))).
  { rewrite S3, B5. exact Hh1. }
  assert (Hhn : map href (tabs st) !! n = Some (href nextTab)).
  { rewrite list_lookup_fmap, Hnext. reflexivity. }
  assert (Hfin :
    currentTab st3 = Some n /\
    length (tabs st3) = length (tabs st) /\
    showProgress st3 = showProgress st /\
    pauseable st3 = pauseable st /\
    armed_for (Timer.clock (world st) +
               Z.max 0 (Timer.delay (Timer.timer (world st)))) st3 /\
    Timer.remaining (Timer.timer (world st3)) =
      Timer.delay (Timer.timer (world st)) /\
    Timer.delay (Timer.timer (world st3)) =
      Timer.delay (Timer.timer (world st)) /\
    Timer.tick (Timer.timer (world st3)) =
      Timer.tick (Timer.timer (world st)) /\
    Timer.clock (world st3) = Timer.clock (world st) /\
    one_pending (world st3)).
  { unfold armed_for. rewrite S1, S2, S3, S4, S5, B4, A7, B2, A1, B3, A2.
    repeat (split; [auto|]). exact C6. }
  destruct Hfin as (F1 & F2 & F3 & F4 & F5 & F6 & F7 & F8 & F9 & F10).
  destruct (negb (String.eqb (href nextTab) EmptyString)) eqn:Eh.
  - destruct (update_tab_frame n (set_href (href nextTab)) st3)
      as (D1 & D2 & D3 & D4 & D5 & D6 & D7).
    rewrite D1, D2, D3, D4, D7, update_tab_set_href, Hh.
    rewrite list_insert_insert_eq.
    rewrite (list_insert_id _ _ _ Hhn).
    unfold armed_for in *. rewrite ?D4.
    repeat (split; [first [assumption|reflexivity]|]). exact F10.
  - apply negb_false_iff, String.eqb_eq in Eh.
    rewrite Hh. rewrite Eh in Hhn. rewrite (list_insert_id _ _ _ Hhn).
    repeat (split; [first [assumption|reflexivity]|]). exact F10.
Qed.

Lemma same_core_refl st : same_core st st.
Proof. unfold same_core; auto 10. Qed.

Lemma same_core_trans st1 st2 st3 :
  same_core st1 st2 -> same_core st2 st3 -> same_core st1 st3.
Proof.
  unfold same_core. intros (A1 & A2 & A3 & A4 & A5 & A6)
    (B1 & B2 & B3 & B4 & B5 & B6).
  repeat split; congruence.
Qed.

Lemma update_tab_core i f st :
  (forall t, href (f t) = href t) -> same_core st (update_tab i f st).
Proof.
  intros Hf.
  destruct (update_tab_frame i f st) as (A1 & A2 & A3 & A4 & _ & _ & A7).
  unfold same_core. rewrite (update_tab_hrefs i f st Hf). auto 10.
Qed.

Lemma paint_core p st : same_core st (paint p st).
Proof.
  unfold paint. destruct (currentTab st) as [c|]; [|apply same_core_refl].
  destruct (tabs st !! c) as [t|]; [|apply same_core_refl].
  destruct (progressBar t); [|apply same_core_refl].
  apply update_tab_core. reflexivity.
Qed.

Lemma paints_core ps st :
  same_core st (fold_left (fun s p => paint p s) ps st).
Proof.
  revert st; induction ps as [|p ps IH]; intros st; cbn;
    [apply same_core_refl|].
  eapply same_core_trans; [apply paint_core|apply IH].
Qed.

Lemma ticks_core ps st :
  same_core st (fold_left (fun s p => tick p s) ps st) /\
  tabs (fold_left (fun s p => tick p s) ps st) = tabs st.
Proof.
  revert st; induction ps as [|p ps IH]; intros st; cbn;
    [split; [apply same_core_refl|reflexivity]|].
  destruct (IH (tick p st)) as [H1 H2]. split; [|rewrite H2; reflexivity].
  eapply same_core_trans; [|exact H1]. unfold same_core; cbn; auto 10.
Qed.

Lemma style_timeout_core st : same_core st (style_timeout st).
Proof.
  unfold style_timeout.
  destruct (style_timeouts st) as [|[[id due] c] rest];
    [apply same_core_refl|].
  destruct (due <=? Timer.clock (world st)); [|apply same_core_refl].
  match goal with
  | |- context [tabs ?s !! c] => set (st1 := s)
  end.
  assert (H1 : same_core st st1) by (unfold same_core; cbn; auto 10).
  destruct (tabs st1 !! c) as [t|]; [|exact H1].
  destruct (progressBar t); [|exact H1].
  eapply same_core_trans; [exact H1|]. apply update_tab_core. reflexivity.
Qed.

Lemma well_formed_core st st' :
  same_core st st' -> well_formed st -> well_formed st'.
Proof.
  intros (A1 & A2 & A3 & A4 & A5 & A6) (Hne & Hcv & Htk & Hone).
  unfold well_formed, current_valid in *. rewrite A3, A4, A5, A1.
  repeat split; auto.
  intros E. apply Hne. destruct (tabs st); [reflexivity|].
  rewrite E in A5. discriminate.
Qed.

Lemma well_formed_world w st :
  one_pending w ->
  Timer.tick (Timer.timer w) = Timer.tick (Timer.timer (world st)) ->
  well_formed st -> well_formed (set_world w st).
Proof.
  intros Hone Htk (Hne & Hcv & Ht & _).
  unfold well_formed, current_valid in *. cbn.
  repeat split; auto. congruence.
Qed.

Lemma not_stale_armed due st : armed_for due st -> ~ Timer.stale (world st).
Proof. intros (id & _ & Hto) [_ E]. rewrite E in Hto. discriminate. Qed.

Lemma stale_after_pause w : Timer.stale (Timer.pause w) -> Timer.stale w.
Proof.
  unfold Timer.pause. destruct (JS.truthy (Timer.start (Timer.timer w)));
    [|auto].
  intros [[id Hid] _]. exfalso.
  destruct w as [[? ? ? ? tid] ? ? ? ?]. destruct tid; discriminate.
Qed.

Lemma stale_after_resume w : Timer.stale (Timer.resume w) -> Timer.stale w.
Proof.
  destruct (Timer.timerId (Timer.timer w)) as [id|] eqn:Hid.
  - rewrite resume_with_handle by (rewrite Hid; eauto). auto.
  - destruct (resume_idle w Hid) as (A & _). intros [_ E].
    rewrite A in E. destruct (Timer.timeouts w); discriminate.
Qed.

Lemma set_world_same st : set_world (world st) st = st.
Proof. destruct st; reflexivity. Qed.

Lemma filter_none_due {A} (f : A -> bool) (l : list A) :
  (forall e, In e l -> f e = false) ->
  List.filter f l = [] /\ List.filter (fun e => negb (f e)) l = l.
Proof.
  induction l as [|x l IH]; intros Hn; [auto|].
  cbn. rewrite (Hn x) by (left; reflexivity). cbn.
  destruct IH as [-> ->]; [|auto].
  intros e He. apply Hn. right; exact He.
Qed.

Lemma timer_timeout_idle st :
  (forall e, In e (Timer.timeouts (world st)) ->
     Timer.is_due (Timer.clock (world st)) e = false) ->
  timer_timeout st = st.
Proof.
  intros Hn. unfold timer_timeout, Timer.fire.
  destruct (filter_none_due _ _ Hn) as [-> ->]. cbn.
  destruct st as [? ? ? ? [? ? ? ? ?] ? ?]. reflexivity.
Qed.

Lemma timer_timeout_due st id due :
  Timer.timeouts (world st) = [(id, due)] -> due <= Timer.clock (world st) ->
  timer_timeout st =
  rotate (set_world
            (Timer.mkWorld (Timer.timer (world st)) (Timer.clock (world st))
               (Timer.nextId (world st)) [] (Timer.frames (world st))) st).
Proof.
  intros Hto Hdue. unfold timer_timeout, Timer.fire. rewrite Hto.
  cbn [List.filter]. unfold Timer.is_due at 1 2. cbn [snd].
  apply Z.leb_le in Hdue. rewrite Hdue. reflexivity.
Qed.

(** Every event keeps the rotation well formed and never stuck, and
    leaves the setup alone. *)
Lemma step_invariant e st :
  well_formed st -> never_stuck st ->
  well_formed (step e st) /\ never_stuck (step e st) /\
  same_setup st (step e st).
Proof.
  intros Hwf Hns.
  assert (Hact : forall i, is_Some (tabs st !! i) ->
            well_formed (activateTab i st) /\ never_stuck (activateTab i st) /\
            same_setup st (activateTab i st)).
  { intros i [t Hi]. destruct Hwf as (Hne & Hcv & Htk & Hone).
    destruct (activateTab_spec i st) as (B1 & B2 & B3 & B4 & B5 & _).
    destruct (activateTab_arms i st Hone) as (C1 & C2 & C3 & C4 & C5 & C6).
    split; [|split].
    - unfold well_formed, current_valid. rewrite B1, B4, C4, B2.
      repeat split; auto.
      + intros E. apply Hne. destruct (tabs st); [reflexivity|].
        rewrite E in B4. discriminate.
      + apply lookup_lt_Some in Hi. exact Hi.
    - intros Hs. exfalso. exact (not_stale_armed _ _ C1 Hs).
    - unfold same_setup. auto 10. }
  assert (Hcore : forall st', same_core st st' ->
            well_formed st' /\ never_stuck st' /\ same_setup st st').
  { intros st' Hc. split; [exact (well_formed_core _ _ Hc Hwf)|].
    destruct Hc as (A1 & A2 & A3 & A4 & A5 & A6).
    split; [unfold never_stuck; rewrite A3, A4; exact Hns|].
    unfold same_setup. rewrite A4. auto 10. }
  assert (Hworld : forall o,
            (Timer.stale (fst (Timer.step o (world st))) ->
             Timer.stale (world st)) ->
            snd (Timer.step o (world st)) = [] ->
            let st' := set_world (fst (Timer.step o (world st))) st in
            well_formed st' /\ never_stuck st' /\ same_setup st st').
  { intros o Hst _ st'. destruct Hwf as (Hne & Hcv & Htk & Hone).
    destruct (step_config o (world st)) as [Ed Et].
    split; [|split].
    - apply well_formed_world; [apply one_pending_step, Hone|exact Et|].
      unfold well_formed; auto.
    - intros Hs. apply Hns, Hst, Hs.
    - unfold same_setup. cbn. auto 10. }
  destruct e; cbn [step].
  - unfold on_click. destruct (tabs st !! i) eqn:Hi;
      [apply Hact; eauto|apply Hcore, same_core_refl].
  - unfold on_focus. destruct (tabs st !! i) eqn:Hi;
      [|apply Hcore, same_core_refl].
    destruct (negb (same_tab (currentTab st) i));
      [apply Hact; eauto|apply Hcore, same_core_refl].
  - unfold on_mouseenter. destruct (pauseable st);
      [|apply Hcore, same_core_refl].
    apply (Hworld Timer.Pause); [apply stale_after_pause|reflexivity].
  - unfold on_mouseleave. destruct (pauseable st);
      [|apply Hcore, same_core_refl].
    apply (Hworld Timer.Resume); [apply stale_after_resume|reflexivity].
  - apply (Hworld (Timer.Wait dt)); [|reflexivity].
    unfold Timer.stale; cbn. auto.
  - destruct Hwf as (Hne & Hcv & Htk & Hone).
    assert (Hidle : (forall e, In e (Timer.timeouts (world st)) ->
               Timer.is_due (Timer.clock (world st)) e = false) ->
             well_formed (timer_timeout st) /\ never_stuck (timer_timeout st) /\
             same_setup st (timer_timeout st)).
    { intros Hn. rewrite (timer_timeout_idle st Hn).
      apply Hcore, same_core_refl. }
    destruct Hone as [Hto|(id & due & Hto & Hid)].
    { apply Hidle. rewrite Hto. intros e []. }
    destruct (Timer.is_due (Timer.clock (world st)) (id, due)) eqn:Edue.
    2:{ apply Hidle. rewrite Hto. intros e [<-|[]]. exact Edue. }
    unfold Timer.is_due in Edue; cbn [snd] in Edue. apply Z.leb_le in Edue.
    rewrite (timer_timeout_due st id due Hto Edue).
    set (mid := set_world _ st).
    assert (Hmid : well_formed mid).
    { apply well_formed_world; [left; reflexivity|reflexivity|].
      unfold well_formed. do 3 (split; [assumption|]). right. eauto. }
    destruct (currentTab st) as [c|] eqn:Hc.
    + destruct (rotate_spec mid c Hmid Hc)
        as (R1 & R2 & R3 & R4 & R5 & R6 & R7 & R8 & R9 & R10 & R11).
      split; [|split].
      * unfold well_formed, current_valid. rewrite R1, R3, R9, R4.
        repeat split; auto.
        -- intros E. apply Hne. change (tabs mid) with (tabs st) in R3.
           destruct (tabs st); [reflexivity|]. rewrite E in R3. discriminate.
        -- apply next_index_in_ring. unfold current_valid in Hcv.
           rewrite Hc in Hcv. exact Hcv.
      * intros Hs. exfalso. exact (not_stale_armed _ _ R6 Hs).
      * unfold same_setup. auto 10.
    + assert (E : rotate mid = mid) by (unfold rotate; cbn; rewrite Hc; auto).
      rewrite E. split; [exact Hmid|]. split.
      * intros _. exact Hc.
      * unfold same_setup. cbn. auto 10.
  - apply Hcore, style_timeout_core.
  - unfold animation_frame.
    match goal with
    | |- context [fold_left (fun s p => paint p s) ?ps ?s0] =>
        set (st1 := fold_left (fun s p => paint p s) ps s0)
    end.
    assert (H1 : same_core st st1).
    { eapply same_core_trans; [|apply paints_core].
      unfold same_core; cbn; auto 10. }
    destruct (Timer.frame (world st1)) as [w out] eqn:Ef.
    destruct (ticks_core (Timer.progress_values out) (set_world w st1))
      as [H2 _].
    set (st3 := fold_left (fun s p => tick p s) _ _) in *.
    destruct H1 as (A1 & A2 & A3 & A4 & A5 & A6).
    destruct H2 as (B1 & B2 & B3 & B4 & B5 & B6).
    change (showProgress (set_world w st1)) with (showProgress st1) in B1.
    change (pauseable (set_world w st1)) with (pauseable st1) in B2.
    change (currentTab (set_world w st1)) with (currentTab st1) in B3.
    change (world (set_world w st1)) with w in B4.
    change (tabs (set_world w st1)) with (tabs st1) in B5, B6.
    destruct (frame_keeps (world st)) as (T & C & O & F).
    rewrite A4 in Ef. rewrite Ef in T, C, O, F. cbn [fst] in T, C, O.
    destruct Hwf as (Hne & Hcv & Htk & Hone).
    split; [|split].
    + assert (Hlen : length (tabs st3) = length (tabs st)) by congruence.
      unfold well_formed, current_valid, one_pending.
      unfold current_valid in Hcv. unfold one_pending in Hone.
      rewrite B3, A3, B4, Hlen, B1, A1, T, O.
      split; [|auto].
      intros E. apply Hne. destruct (tabs st); [reflexivity|].
      rewrite E in Hlen. discriminate.
    + unfold never_stuck, Timer.stale. unfold never_stuck, Timer.stale in Hns.
      rewrite B3, A3, B4, T, O. exact Hns.
    + unfold same_setup. rewrite B1, A1, B2, A2, B5, A5, B6, A6, B4, T. auto 10.
Qed.

Lemma run_invariant es st :
  well_formed st -> never_stuck st ->
  well_formed (run es st) /\ never_stuck (run es st) /\
  same_setup st (run es st).
Proof.
  revert st; induction es as [|e es IH]; intros st Hwf Hns.
  - split; [exact Hwf|]. split; [exact Hns|]. unfold same_setup; auto 10.
  - change (run (e :: es) st) with (run es (step e st)).
    destruct (step_invariant e st Hwf Hns) as (H1 & H2 & H3).
    destruct (IH _ H1 H2) as (H4 & H5 & H6).
    split; [exact H4|]. split; [exact H5|].
    unfold same_setup in *.
    destruct H3 as (A1 & A2 & A3 & A4 & A5).
    destruct H6 as (B1 & B2 & B3 & B4 & B5).
    repeat split; congruence.
Qed.

Lemma apply_invariant now speed progress hover ts st :
  apply now speed progress hover ts = Some st ->
  well_formed st /\ never_stuck st /\
  showProgress st = progress /\ pauseable st = hover /\ tabs st = ts /\
  currentTab st = find_current ts /\
  Timer.delay (Timer.timer (world st)) = speed /\
  Timer.clock (world st) = now /\
  (forall c, currentTab st = Some c ->
     armed_for (now + Z.max 0 speed) st).
Proof.
  unfold apply. destruct ts as [|t ts']; [discriminate|].
  intros [= <-].
  change (if w_current t then Some 0%nat
          else option_map S (find_current ts'))
    with (find_current (t :: ts')).
  remember (t :: ts') as ts eqn:Ets.
  cbn [showProgress pauseable tabs currentTab world].
  assert (Hfc : forall l c, find_current l = Some c -> (c < length l)%nat).
  { induction l as [|x l IH]; cbn; [discriminate|].
    destruct (w_current x); [intros c [= <-]; lia|].
    destruct (find_current l) as [c'|]; cbn; [|discriminate].
    intros c [= <-]. specialize (IH c' eq_refl). lia. }
  destruct (find_current ts) as [c|] eqn:Hc.
  - assert (Hto : Timer.timeouts (Timer.resume (Timer.init now speed progress))
                  = [(1%positive, now + Z.max 0 speed)])
      by (destruct progress; reflexivity).
    assert (Hid : Timer.timerId (Timer.timer
                    (Timer.resume (Timer.init now speed progress)))
                  = Some 1%positive) by (destruct progress; reflexivity).
    split; [|split].
    + unfold well_formed, current_valid.
      cbn [tabs currentTab world showProgress].
      split; [rewrite Ets; discriminate|]. split; [apply Hfc, Hc|].
      split; [destruct progress; reflexivity|].
      right. eauto.
    + intros [_ E]. cbn [world] in E. rewrite Hto in E. discriminate.
    + do 4 (split; [reflexivity|]).
      split; [destruct progress; reflexivity|].
      split; [destruct progress; reflexivity|].
      intros c' _. exists 1%positive. cbn [world]. auto.
  - split; [|split].
    + unfold well_formed, current_valid.
      cbn [tabs currentTab world showProgress].
      split; [rewrite Ets; discriminate|]. split; [exact I|].
      split; [reflexivity|]. left; reflexivity.
    + intros _. reflexivity.
    + do 6 (split; [reflexivity|]). intros c [=].
Qed.

Lemma armed_after_wait due dt st :
  armed_for due st ->
  armed_for due (step (Wait dt) st) /\
  Timer.clock (world (step (Wait dt) st)) =
    Timer.clock (world st) + Z.of_N dt /\
  currentTab (step (Wait dt) st) = currentTab st.
Proof. intros (id & Hid & Hto). cbn. split; [exists id; auto|auto]. Qed.

(** What the due completion does to a well-formed rotation with a current
    tab. *)
Lemma due_timeout_rotates st c due :
  well_formed st -> currentTab st = Some c -> armed_for due st ->
  due <= Timer.clock (world st) ->
  let st' := step TimerTimeout st in
  currentTab st' = Some (next_in_ring (length (tabs st)) c) /\
  armed_for (Timer.clock (world st) +
             Z.max 0 (Timer.delay (Timer.timer (world st)))) st' /\
  Timer.remaining (Timer.timer (world st')) =
    Timer.delay (Timer.timer (world st)) /\
  Timer.clock (world st') = Timer.clock (world st).
Proof.
  intros Hwf Hc (id & Hid & Hto) Hdue st'. unfold st'. cbn [step].
  rewrite (timer_timeout_due st id due Hto Hdue).
  set (mid := set_world _ st).
  assert (Hmid : well_formed mid).
  { destruct Hwf as (Hne & Hcv & Htk & Hone).
    apply well_formed_world; [left; reflexivity|reflexivity|].
    unfold well_formed. auto. }
  destruct (rotate_spec mid c Hmid Hc)
    as (R1 & _ & _ & _ & _ & R6 & R7 & _ & _ & R10 & _).
  auto.
Qed.

Lemma rounds_from k dt st c :
  well_formed st -> never_stuck st -> currentTab st = Some c ->
  Z.max 0 (Timer.delay (Timer.timer (world st))) <= Z.of_N dt ->
  (exists due, armed_for due st /\ due <= Timer.clock (world st) + Z.of_N dt) ->
  currentTab (run (rounds k dt) st) =
    Some ((c + k) mod length (tabs st))%nat.
Proof.
  revert st c; induction k as [|k IH]; intros st c Hwf Hns Hc Hdt (due & Ha & Hd).
  - cbn. rewrite Nat.add_0_r, Nat.mod_small; [exact Hc|].
    destruct Hwf as (_ & Hcv & _). unfold current_valid in Hcv.
    rewrite Hc in Hcv. exact Hcv.
  - change (run (rounds (S k) dt) st)
      with (run (rounds k dt) (step TimerTimeout (step (Wait dt) st))).
    destruct (step_invariant (Wait dt) st Hwf Hns) as (W1 & W2 & W3).
    destruct (armed_after_wait due dt st Ha) as (A1 & A2 & A3).
    set (st1 := step (Wait dt) st) in *.
    assert (Hc1 : currentTab st1 = Some c) by congruence.
    assert (Hd1 : due <= Timer.clock (world st1)) by lia.
    destruct (due_timeout_rotates st1 c due W1 Hc1 A1 Hd1)
      as (R1 & R2 & R3 & R4).
    destruct (step_invariant TimerTimeout st1 W1 W2) as (T1 & T2 & T3).
    set (st2 := step TimerTimeout st1) in *.
    destruct W3 as (_ & _ & L1 & _ & D1).
    destruct T3 as (_ & _ & L2 & _ & D2).
    rewrite (IH st2 _ T1 T2 R1).
    + rewrite L2, L1. f_equal. unfold next_in_ring.
      rewrite Nat.Div0.add_mod_idemp_l. f_equal. lia.
    + rewrite D2, D1. exact Hdt.
    + eexists. split; [exact R2|]. rewrite R4, D1. lia.
Qed.

(** X13. In every state the rotation reaches, the current tab (if any) is
    one of the tabs, at most one completion is pending, and the timer
    keeps the configured delay. *)
Theorem rotation_stays_well_formed now speed progress hover ts st0 es :
  apply now speed progress hover ts = Some st0 ->
  let st := run es st0 in
  current_valid st /\ length (tabs st) = length ts /\
  (length (Timer.timeouts (world st)) <= 1)%nat /\
  Timer.delay (Timer.timer (world st)) = speed.
Proof.
  intros Ha st.
  destruct (apply_invariant _ _ _ _ _ _ Ha)
    as (I1 & I2 & _ & _ & I5 & _ & I7 & _).
  destruct (run_invariant es st0 I1 I2) as ((_ & Hcv & _ & Hone) & _ & S1).
  destruct S1 as (_ & _ & L & _ & D). fold st in Hcv, Hone, L, D.
  split; [exact Hcv|]. split; [congruence|]. split; [|congruence].
  destruct Hone as [->|(id & due & -> & _)]; cbn; lia.
Qed.

Lemma rotation_stays_well_formed_witness :
  from_option
    (fun st0 =>
       current_valid
         (run [Wait 3000; TimerTimeout; MouseEnter; Click 2 true;
               AnimationFrame] st0))
    False (apply 1000 3000 true true sample_tabs).
Proof.
  exact (proj1 (rotation_stays_well_formed 1000 3000 true true sample_tabs _
           [Wait 3000; TimerTimeout; MouseEnter; Click 2 true; AnimationFrame]
           eq_refl)).
Defined.

Lemma reachable_rotation now speed progress hover ts st0 es :
  apply now speed progress hover ts = Some st0 ->
  well_formed (run es st0) /\ never_stuck (run es st0) /\
  length (tabs (run es st0)) = length ts /\
  map href (tabs (run es st0)) = map href ts /\
  Timer.delay (Timer.timer (world (run es st0))) = speed /\
  pauseable (run es st0) = hover /\ showProgress (run es st0) = progress.
Proof.
  intros Ha.
  destruct (apply_invariant _ _ _ _ _ _ Ha)
    as (I1 & I2 & I3 & I4 & I5 & _ & I7 & _).
  destruct (run_invariant es st0 I1 I2) as (H1 & H2 & S1 & S2 & S3 & S4 & S5).
  split; [exact H1|]. split; [exact H2|].
  repeat split; congruence.
Qed.

(** X14. When the pending completion of a rotation with a current tab is
    due and runs, the tab after the current one becomes current, the first
    one after the last, and a new completion is pending a full delay from
    now (at once when the delay is negative) with [remaining] back at the
    delay. *)
Theorem completion_activates_next_tab now speed progress hover ts st0 es c due :
  apply now speed progress hover ts = Some st0 ->
  let st := run es st0 in
  currentTab st = Some c -> armed_for due st ->
  due <= Timer.clock (world st) ->
  let st' := step TimerTimeout st in
  currentTab st' = Some (next_in_ring (length ts) c) /\
  armed_for (Timer.clock (world st) + Z.max 0 speed) st' /\
  Timer.remaining (Timer.timer (world st')) = speed.
Proof.
  intros Ha st Hc Harm Hdue st'.
  destruct (reachable_rotation _ _ _ _ _ _ es Ha)
    as (Hwf & _ & Hlen & _ & Hd & _). fold st in Hwf, Hlen, Hd.
  destruct (due_timeout_rotates st c due Hwf Hc Harm Hdue)
    as (R1 & R2 & R3 & _).
  rewrite Hlen, Hd in *. auto.
Qed.

Lemma completion_activates_next_tab_witness :
  from_option
    (fun st0 =>
       let st := run [Wait 3000; TimerTimeout; Wait 1000; Click 2 true;
                      Wait 3500] st0 in
       currentTab (step TimerTimeout st) = Some 0%nat /\
       armed_for (8500 + 3000) (step TimerTimeout st))
    False (apply 1000 3000 true true sample_tabs).
Proof.
  destruct (completion_activates_next_tab 1000 3000 true true sample_tabs _
    [Wait 3000; TimerTimeout; Wait 1000; Click 2 true; Wait 3500]
    2%nat 8000 eq_refl eq_refl
    ltac:(exists 4%positive; split; reflexivity)
    ltac:(vm_compute; discriminate)) as (H1 & H2 & _).
  split; [exact H1|exact H2].
Defined.

(** X15. Left alone, the rotation visits the tabs in turn: after [k]
    rounds of waiting at least the delay and letting the due timeout run,
    the tab [k] places after the initial one, counted cyclically, is
    current. *)
Theorem rotation_visits_tabs_in_turn now speed progress hover ts st0 c k dt :
  apply now speed progress hover ts = Some st0 ->
  currentTab st0 = Some c ->
  Z.max 0 speed <= Z.of_N dt ->
  currentTab (run (rounds k dt) st0) = Some ((c + k) mod length ts)%nat.
Proof.
  intros Ha Hc Hdt.
  destruct (apply_invariant _ _ _ _ _ _ Ha)
    as (I1 & I2 & _ & _ & I5 & _ & I7 & I8 & I9).
  rewrite <- I5.
  apply rounds_from; auto.
  - rewrite I7. exact Hdt.
  - exists (now + Z.max 0 speed). split; [eauto|]. rewrite I8. lia.
Qed.

Lemma rotation_visits_tabs_in_turn_witness :
  from_option
    (fun st0 => currentTab (run (rounds 4 3000) st0) = Some 1%nat)
    False (apply 1000 3000 false false sample_tabs).
Proof.
  exact (rotation_visits_tabs_in_turn 1000 3000 false false sample_tabs _
           0%nat 4%nat 3000%N eq_refl eq_refl ltac:(vm_compute; discriminate)).
Defined.

(** X16. In every state the rotation reaches, a click on one of its tabs
    makes that tab current and starts a full countdown: one completion is
    pending, due the delay from now (at once when the delay is negative),
    and [remaining] is the delay. *)
Theorem click_restarts_the_countdown now speed progress hover ts st0 es i
    isTrusted :
  apply now speed progress hover ts = Some st0 ->
  (i < length ts)%nat ->
  let st := run es st0 in
  let st' := step (Click i isTrusted) st in
  currentTab st' = Some i /\
  armed_for (Timer.clock (world st) + Z.max 0 speed) st' /\
  Timer.remaining (Timer.timer (world st')) = speed.
Proof.
  intros Ha Hi st st'.
  destruct (reachable_rotation _ _ _ _ _ _ es Ha)
    as ((_ & _ & _ & Hone) & _ & Hlen & _ & Hd & _).
  fold st in Hone, Hlen, Hd.
  unfold st'. cbn [step]. unfold on_click.
  destruct (lookup_lt_is_Some_2 (tabs st) i) as [t Ht]; [lia|].
  rewrite Ht.
  destruct (activateTab_spec i st) as (B1 & _).
  destruct (activateTab_arms i st Hone) as (C1 & C2 & _).
  rewrite Hd in C1, C2. auto.
Qed.

Lemma click_restarts_the_countdown_witness :
  from_option
    (fun st0 =>
       let st := run [Wait 2000; MouseEnter; Wait 500] st0 in
       currentTab (step (Click 1 true) st) = Some 1%nat /\
       armed_for (3500 + 3000) (step (Click 1 true) st))
    False (apply 1000 3000 true true sample_tabs).
Proof.
  destruct (click_restarts_the_countdown 1000 3000 true true sample_tabs _
    [Wait 2000; MouseEnter; Wait 500] 1%nat true eq_refl
    ltac:(vm_compute; lia)) as (H1 & H2 & _).
  split; [exact H1|exact H2].
Defined.

Lemma animation_frame_world st :
  Timer.timer (world (animation_frame st)) = Timer.timer (world st) /\
  Timer.timeouts (world (animation_frame st)) = Timer.timeouts (world st) /\
  currentTab (animation_frame st) = currentTab st /\
  pauseable (animation_frame st) = pauseable st.
Proof.
  unfold animation_frame.
  match goal with
  | |- context [fold_left (fun s p => paint p s) ?ps ?s0] =>
      set (st1 := fold_left (fun s p => paint p s) ps s0)
  end.
  assert (H1 : same_core st st1).
  { eapply same_core_trans; [|apply paints_core].
    unfold same_core; cbn; auto 10. }
  destruct (Timer.frame (world st1)) as [w out] eqn:Ef.
  destruct (ticks_core (Timer.progress_values out) (set_world w st1))
    as [(B1 & B2 & B3 & B4 & _) _].
  destruct H1 as (A1 & A2 & A3 & A4 & _).
  destruct (frame_keeps (world st1)) as (T & _ & O & _).
  rewrite Ef in T, O. cbn [fst] in T, O.
  rewrite B4, B3, B2. cbn [world set_world currentTab pauseable].
  rewrite T, O, A4, A3, A2. auto.
Qed.

Lemma keeps_going_step e st :
  well_formed st -> keeps_going st -> keeps_going (step e st).
Proof.
  intros Hwf Hk.
  assert (Hact : forall i, keeps_going (activateTab i st)).
  { intros i _ _ E. destruct Hwf as (_ & _ & _ & Hone).
    destruct (activateTab_arms i st Hone) as ((id & _ & Hto) & _).
    rewrite Hto in E. discriminate. }
  assert (Hcore : forall st', same_core st st' -> keeps_going st').
  { intros st' (A1 & A2 & A3 & A4 & _). unfold keeps_going.
    rewrite A2, A3, A4. exact Hk. }
  destruct e; cbn [step].
  - unfold on_click. destruct (tabs st !! i); [apply Hact|exact Hk].
  - unfold on_focus. destruct (tabs st !! i); [|exact Hk].
    destruct (negb (same_tab (currentTab st) i)); [apply Hact|exact Hk].
  - unfold on_mouseenter. destruct (pauseable st) eqn:Hp; [|exact Hk].
    intros E. cbn in E. congruence.
  - unfold on_mouseleave. destruct (pauseable st) eqn:Hp; [|exact Hk].
    intros E. cbn in E. congruence.
  - unfold keeps_going. cbn. exact Hk.
  - destruct Hwf as (Hne & Hcv & Htk & Hone).
    assert (Hidle : (forall e, In e (Timer.timeouts (world st)) ->
               Timer.is_due (Timer.clock (world st)) e = false) ->
             keeps_going (timer_timeout st)).
    { intros Hn. rewrite (timer_timeout_idle st Hn). exact Hk. }
    destruct Hone as [Hto|(id & due & Hto & Hid)].
    { apply Hidle. rewrite Hto. intros e []. }
    destruct (Timer.is_due (Timer.clock (world st)) (id, due)) eqn:Edue.
    2:{ apply Hidle. rewrite Hto. intros e [<-|[]]. exact Edue. }
    unfold Timer.is_due in Edue; cbn [snd] in Edue. apply Z.leb_le in Edue.
    rewrite (timer_timeout_due st id due Hto Edue).
    set (mid := set_world _ st).
    assert (Hmid : well_formed mid).
    { apply well_formed_world; [left; reflexivity|reflexivity|].
      unfold well_formed. do 3 (split; [assumption|]). right. eauto. }
    destruct (currentTab st) as [c|] eqn:Hc.
    + destruct (rotate_spec mid c Hmid Hc)
        as (_ & _ & _ & _ & _ & (i & _ & Hto') & _).
      intros _ _ E. rewrite Hto' in E. discriminate.
    + assert (E : rotate mid = mid) by (unfold rotate; cbn; rewrite Hc; auto).
      rewrite E. intros _ Hcur. cbn in Hcur. congruence.
  - apply Hcore, style_timeout_core.
  - destruct (animation_frame_world st) as (T & O & C & P).
    unfold keeps_going. rewrite P, C, O. exact Hk.
Qed.

Lemma keeps_going_run es st :
  well_formed st -> never_stuck st -> keeps_going st ->
  keeps_going (run es st).
Proof.
  revert st; induction es as [|e es IH]; intros st Hwf Hns Hk; [exact Hk|].
  change (run (e :: es) st) with (run es (step e st)).
  destruct (step_invariant e st Hwf Hns) as (H1 & H2 & _).
  apply IH; auto. apply keeps_going_step; assumption.
Qed.

(** X17. A rotation with a current tab cannot get stuck: in every state it
    reaches the timer's handle is not stale, so the [resume()] of a
    [mouseleave] always leaves a completion pending; and where hovering
    cannot pause, a completion is pending all the time. *)
Theorem rotation_never_stuck now speed progress hover ts st0 es :
  apply now speed progress hover ts = Some st0 ->
  let st := run es st0 in
  currentTab st <> None ->
  ~ Timer.stale (world st) /\
  (hover = true -> Timer.timeouts (world (step MouseLeave st)) <> []) /\
  (hover = false -> Timer.timeouts (world st) <> []).
Proof.
  intros Ha st Hcur.
  destruct (reachable_rotation _ _ _ _ _ _ es Ha)
    as (Hwf & Hns & _ & _ & _ & Hp & _). fold st in Hwf, Hns, Hp.
  assert (Hnot : ~ Timer.stale (world st)).
  { intros Hs. apply Hcur, Hns, Hs. }
  split; [exact Hnot|]. split.
  - intros Hh. cbn [step]. unfold on_mouseleave. rewrite Hp, Hh.
    cbn [world set_world]. intros E. apply Hnot. apply stale_after_resume.
    split; [apply resume_sets_handle|exact E].
  - intros Hh.
    destruct (apply_invariant _ _ _ _ _ _ Ha)
      as (I1 & I2 & _ & I4 & _ & _ & _ & _ & I9).
    assert (Hk0 : keeps_going st0).
    { intros _ Hc0. destruct (currentTab st0) as [c0|] eqn:E0; [|congruence].
      destruct (I9 c0 eq_refl) as (id & _ & Hto). rewrite Hto. discriminate. }
    apply (keeps_going_run es st0 I1 I2 Hk0); [|exact Hcur].
    change (pauseable st = false). congruence.
Qed.

Lemma rotation_never_stuck_witness :
  from_option
    (fun st0 =>
       let st := run [Wait 3000; TimerTimeout; MouseEnter; Wait 9000;
                      TimerTimeout] st0 in
       ~ Timer.stale (world st) /\
       Timer.timeouts (world (step MouseLeave st)) <> [])
    False (apply 1000 3000 true true sample_tabs).
Proof.
  destruct (rotation_never_stuck 1000 3000 true true sample_tabs _
    [Wait 3000; TimerTimeout; MouseEnter; Wait 9000; TimerTimeout]
    eq_refl ltac:(vm_compute; discriminate)) as (H1 & H2 & _).
  split; [exact H1|exact (H2 eq_refl)].
Defined.

(** X18. No event ever changes what the [href] of a tab reads: the
    completion callback takes it off the next tab while it clicks it and
    puts it back. *)
Theorem hrefs_never_change now speed progress hover ts st0 es :
  apply now speed progress hover ts = Some st0 ->
  map href (tabs (run es st0)) = map href ts.
Proof.
  intros Ha.
  destruct (reachable_rotation _ _ _ _ _ _ es Ha) as (_ & _ & _ & H & _).
  exact H.
Qed.

Lemma hrefs_never_change_witness :
  from_option
    (fun st0 =>
       map href (tabs (run (rounds 5 3000 ++ [Click 1 false; AnimationFrame])
                         st0)) =
       ["#one"; ""; "#three"]%string)
    False (apply 1000 3000 true false sample_tabs).
Proof.
  exact (hrefs_never_change 1000 3000 true false sample_tabs _
           (rounds 5 3000 ++ [Click 1 false; AnimationFrame]) eq_refl).
Defined.









End RotationFacts.

(** * Properties of the marquee *)

Lemma ceiling_succ c : Qceiling (inject_Z c + inject_Z 1) = c + 1.
Proof.
  rewrite <- inject_Z_plus. apply Qceiling_Z.
Qed.

Lemma ceiling_covers W w :
  0 < w -> W <= Qceiling (Qmake (W * Z.sgn w) (Z.to_pos (Z.abs w))) * w.
Proof.
  intros Hw.
  pose proof (Qle_ceiling (Qmake (W * Z.sgn w) (Z.to_pos (Z.abs w)))) as H.
  unfold Qle, inject_Z in H; cbn [Qnum Qden] in H.
  rewrite den_of_pos in H by lia. rewrite Z.sgn_pos in * by lia. lia.
Qed.

Lemma ceiling_nonneg W w :
  0 < w -> 0 <= W -> 0 <= Qceiling (Qmake (W * Z.sgn w) (Z.to_pos (Z.abs w))).
Proof.
  intros Hw HW.
  change 0 with (Qceiling (inject_Z 0)) at 1.
  apply Qceiling_resp_le.
  unfold Qle, inject_Z; cbn [Qnum Qden]. rewrite Z.sgn_pos by lia. nia.
Qed.

Lemma marquee_clones W w pg pd :
  0 < w ->
  Marquee.clones (Marquee.construct w W pg pd) =
  Some (Z.to_nat
          (Qceiling (Qmake (W * Z.sgn w) (Z.to_pos (Z.abs w))) + 1)).
Proof.
  intros Hw. unfold Marquee.clones, Marquee.numCopies, Marquee.construct.
  cbn [Marquee.marqueeWidth Marquee.marqueeInnerWidth].
  unfold JS.div. destruct (w =? 0) eqn:E; [apply Z.eqb_eq in E; lia|].
  cbn [JSMath.ceil JSMath.add JS.of_Z JSMath.iterations].
  rewrite ceiling_succ. reflexivity.
Qed.

(** X20.  A marquee whose item has a positive width gets at least two
    blocks in its wrapper, and, when its gap is a number that is not
    negative, so many that the row, moved left by a whole item and its gap,
    which is as far as the tween goes, still covers the container. *)
Theorem marquee_row_covers_container W w pg pd :
  0 < w -> 0 <= W ->
  let m := Marquee.construct w W pg pd in
  exists k,
    Marquee.blocks m = Some k /\ (2 <= k)%nat /\
    forall g, Marquee.gap m = JS.Num g -> (0 <= g)%Q ->
      Marquee.tween_x m = JS.Num (- (inject_Z w + g)) /\
      (inject_Z W + (inject_Z w + g) <= Marquee.row_width k w g)%Q.
Proof.
  intros Hw HW m. subst m. unfold Marquee.blocks.
  rewrite marquee_clones by exact Hw. cbn [option_map].
  pose proof (ceiling_covers W w Hw) as Hc.
  pose proof (ceiling_nonneg W w Hw HW) as Hn.
  set (c := Qceiling _) in *.
  exists (S (Z.to_nat (c + 1))). split; [reflexivity|]. split; [lia|].
  intros g Hg Hg0. split.
  - unfold Marquee.tween_x, Marquee.itemWidth. rewrite Hg.
    cbn [Marquee.marqueeInnerWidth Marquee.construct JS.of_Z JSMath.add
         JSMath.neg]. reflexivity.
  - unfold Marquee.row_width.
    replace (Z.of_nat (S (Z.to_nat (c + 1)))) with (c + 2) by lia.
    replace (c + 2 - 1) with (c + 1) by lia.
    rewrite !inject_Z_plus.
    assert (E1 : ((inject_Z c + inject_Z 2) * inject_Z w +
                  (inject_Z c + inject_Z 1) * g ==
                  (inject_Z (c * w) + inject_Z w + g) +
                  (inject_Z w + inject_Z c * g))%Q).
    { rewrite inject_Z_mult. change (inject_Z 2) with (2%Q).
      change (inject_Z 1) with (1%Q). ring. }
    assert (E2 : (inject_Z W + (inject_Z w + g) ==
                  (inject_Z W + inject_Z w + g) + 0)%Q) by ring.
    rewrite E1, E2.
    apply Qplus_le_compat.
    + apply Qplus_le_compat; [|apply Qle_refl].
      apply Qplus_le_compat; [|apply Qle_refl].
      rewrite <- Zle_Qle. lia.
    + assert (H1 : (0 <= inject_Z w)%Q).
      { change 0%Q with (inject_Z 0). rewrite <- Zle_Qle. lia. }
      assert (H2 : (0 <= inject_Z c * g)%Q).
      { apply Qmult_le_0_compat; [|exact Hg0].
        change 0%Q with (inject_Z 0). rewrite <- Zle_Qle. exact Hn. }
      assert (E3 : (0 == 0 + 0)%Q) by ring.
      rewrite E3 at 1.
      apply Qplus_le_compat; assumption.
Qed.

Lemma marquee_row_covers_container_witness :
  exists k,
    Marquee.blocks (Marquee.construct 300 1000 (JS.of_Z 16) JS.NaN) = Some k /\
    (2 <= k)%nat /\
    (inject_Z 1000 + (inject_Z 300 + 16) <= Marquee.row_width k 300 16)%Q.
Proof.
  destruct (marquee_row_covers_container 1000 300 (JS.of_Z 16) JS.NaN
              ltac:(lia) ltac:(lia)) as (k & Hk & H2 & Hg).
  exists k. split; [exact Hk|]. split; [exact H2|].
  exact (proj2 (Hg 16%Q eq_refl ltac:(discriminate))).
Defined.

(** X21.  When the item is 0 pixels wide and the container is not, the
    number of copies is [Infinity] and the loop of [setup] that appends the
    clones never ends; when both are 0 wide the count is [NaN] and no clone
    is made. *)
Theorem marquee_setup_with_empty_item W pg pd :
  0 < W ->
  Marquee.numCopies (Marquee.construct 0 W pg pd) = JS.PosInf /\
  Marquee.clones (Marquee.construct 0 W pg pd) = None /\
  Marquee.numCopies (Marquee.construct 0 0 pg pd) = JS.NaN /\
  Marquee.clones (Marquee.construct 0 0 pg pd) = Some 0%nat.
Proof.
  intros HW. unfold Marquee.clones, Marquee.numCopies, Marquee.construct.
  cbn [Marquee.marqueeWidth Marquee.marqueeInnerWidth].
  unfold JS.div. cbn [Z.eqb].
  destruct (W =? 0) eqn:E; [apply Z.eqb_eq in E; lia|].
  destruct (0 <? W) eqn:E2; [|apply Z.ltb_ge in E2; lia].
  cbn. auto.
Qed.

Lemma marquee_setup_with_empty_item_witness :
  Marquee.clones (Marquee.construct 0 800 JS.NaN JS.NaN) = None.
Proof.
  exact (proj1 (proj2 (marquee_setup_with_empty_item 800 JS.NaN JS.NaN
                         ltac:(lia)))).
Defined.

(** X22.  Whatever [parseFloat] makes of the computed gap and of the
    duration attribute, the marquee's duration is neither 0 nor [NaN], its
    gap is not [NaN], an unusable gap counts as 0 and an unusable duration
    as 20 seconds. *)
Theorem marquee_defaults w W pg pd :
  let m := Marquee.construct w W pg pd in
  Reading.truthy_num (Marquee.duration m) = true /\
  Marquee.gap m <> JS.NaN /\
  (Reading.truthy_num pg = false -> Marquee.gap m = JS.of_Z 0) /\
  (Reading.truthy_num pg = true -> Marquee.gap m = pg) /\
  (Reading.truthy_num pd = false -> Marquee.duration m = JS.of_Z 20) /\
  (Reading.truthy_num pd = true -> Marquee.duration m = pd).
Proof.
  cbn zeta. unfold Marquee.construct, JSMath.or_else.
  cbn [Marquee.gap Marquee.duration].
  destruct (Reading.truthy_num pd) eqn:Ed, (Reading.truthy_num pg) eqn:Eg;
    (split; [first [exact Ed|reflexivity]|]);
    (split; [first [discriminate|destruct pg; cbn in *; congruence]|]);
    repeat split; congruence.
Qed.

(** * Properties of the navigation links *)

Lemma nav_run_app es1 es2 s :
  NavLink.run (es1 ++ es2) s = NavLink.run es2 (NavLink.run es1 s).
Proof. unfold NavLink.run. apply fold_left_app. Qed.

(** The transitions are written once, when the page has loaded. *)
Lemma nav_transitions_kept es s :
  NavLink.dot_transition (NavLink.run es s) = NavLink.dot_transition s /\
  NavLink.text_transition (NavLink.run es s) = NavLink.text_transition s.
Proof.
  revert s; induction es as [|e es IH]; intros s; [split; reflexivity|].
  change (NavLink.run (e :: es) s) with (NavLink.run es (NavLink.step e s)).
  destruct (IH (NavLink.step e s)) as [H1 H2]. rewrite H1, H2.
  destruct e as [|c]; cbn; [auto|]. destruct c; cbn; auto.
Qed.

Lemma nav_current_dot es s :
  Forall (NavLink.class_is true) es -> NavLink.dot_opacity s = "1" ->
  NavLink.dot_opacity (NavLink.run es s) = "1".
Proof.
  revert s; induction es as [|e es IH]; intros s Hes Hs; [exact Hs|].
  change (NavLink.run (e :: es) s) with (NavLink.run es (NavLink.step e s)).
  inversion Hes as [|? ? He Hes']; subst.
  apply IH; [exact Hes'|].
  destruct e as [|c]; cbn in *; [reflexivity|]. subst c. cbn. exact Hs.
Qed.

(** X23.  When the pointer leaves a link, the link looks as it did when
    the page had loaded, whatever was hovered before, as long as the link
    is the current page's as much as it was then. *)
Theorem leave_restores_the_loaded_look c es s0 :
  Forall (NavLink.class_is c) es ->
  NavLink.run (es ++ [NavLink.Leave c]) (NavLink.setup c s0) =
  NavLink.setup c s0.
Proof.
  intros Hes. rewrite nav_run_app.
  destruct (nav_transitions_kept es (NavLink.setup c s0)) as [T1 T2].
  change (NavLink.run [NavLink.Leave c] ?s) with (NavLink.mouseleave c s).
  destruct c.
  - pose proof (nav_current_dot es (NavLink.setup true s0) Hes eq_refl) as Hd.
    unfold NavLink.mouseleave. cbn [negb]. rewrite Hd, T1, T2. reflexivity.
  - unfold NavLink.mouseleave. cbn [negb]. rewrite T1, T2. reflexivity.
Qed.

Lemma leave_restores_the_loaded_look_witness :
  let s0 := NavLink.mk "" "" "" "" "" in
  NavLink.run [NavLink.Enter; NavLink.Leave false; NavLink.Enter;
               NavLink.Leave false] (NavLink.setup false s0) =
  NavLink.setup false s0.
Proof.
  intros s0.
  apply (leave_restores_the_loaded_look false
           [NavLink.Enter; NavLink.Leave false; NavLink.Enter] s0).
  repeat constructor.
Defined.

(** X24.  The dot of the current page's link is never hidden, and while
    the pointer is over a link its dot is shown and its text is moved
    aside; the dot of another link is hidden once the pointer has left. *)
Theorem dot_is_shown_when_current_or_hovered es s0 :
  (Forall (NavLink.class_is true) es ->
   NavLink.dot_opacity (NavLink.run es (NavLink.setup true s0)) = "1") /\
  (forall c,
     NavLink.dot_opacity
       (NavLink.run (es ++ [NavLink.Enter]) (NavLink.setup c s0)) = "1" /\
     NavLink.text_transform
       (NavLink.run (es ++ [NavLink.Enter]) (NavLink.setup c s0)) =
       "translateX(12px)") /\
  NavLink.dot_opacity
    (NavLink.run (es ++ [NavLink.Leave false]) (NavLink.setup false s0)) = "0".
Proof.
  split; [|split].
  - intros Hes. apply nav_current_dot; [exact Hes|reflexivity].
  - intros c. rewrite nav_run_app. split; reflexivity.
  - rewrite nav_run_app. reflexivity.
Qed.
